(** * tensorcraft.backend.model: the artifact entity, the loader and the cache

    A shallow embedding of [src/tensorcraft/backend/model.py].

    - Python objects whose attributes are only read by the code under
      study ([Model] instances held by the cache) are records; the one
      mutable container, the dictionary [Cache.models], is a [gmap]
      threaded through a state-and-error monad.
    - Exceptions are values of [Error]; a call that raises returns [Err]
      and leaves the state as it was at the [raise].
    - Every call made on the wrapped storage, every registration on one
      of its signals and every taking and giving back of the lock is
      appended to a trace, so that "how often was the storage asked" is
      a statement about a list.
    - The methods of the cache are first run by one task at a time; two
      tasks in [Cache.load], resumed by the event loop in any order, are
      a transition system over the same state. *)

From stdpp Require Import gmap strings list fin_maps.

(** ** Exceptions *)

(** What the execution runtime (TensorFlow) raises is its own business;
    it is kept apart from the exceptions this package raises itself. *)
Definition runtime_error := string.

Inductive Error :=
| ValueError (msg : string)
| KeyError (msg : string)
| AttributeError (msg : string)
| NotLoadedError (name tag : string)
| InputShapeError (expected : list (option Z)) (actual : list Z)
| RuntimeError (e : runtime_error)
| StorageError (msg : string).

Inductive Result (A : Type) :=
| Ok (a : A)
| Err (e : Error).
Arguments Ok {A} a.
Arguments Err {A} e.

(** ** State-and-error monad

    [M St A] is a computation over a state [St] that returns an [A] or
    raises.  The state reached at a [raise] is kept: Python does not roll
    back assignments made before an exception. *)
Definition M (St A : Type) : Type := St → Result A * St.

Definition ret {St A} (a : A) : M St A := λ s, (Ok a, s).
Definition raise {St A} (e : Error) : M St A := λ s, (Err e, s).
Definition bind {St A B} (c : M St A) (k : A → M St B) : M St B :=
  λ s, match c s with
       | (Ok a, s') => k a s'
       | (Err e, s') => (Err e, s')
       end.
Definition get_state {St} : M St St := λ s, (Ok s, s).
Definition modify_state {St} (f : St → St) : M St unit := λ s, (Ok tt, f s).

Declare Scope py_scope.
Delimit Scope py_scope with py.
Notation "'let*' x ':=' c 'in' k" := (bind c (λ x, k))
  (at level 10, x name, c at level 100, k at level 200) : py_scope.
Notation "c ';;' k" := (bind c (λ _, k))
  (at level 100, k at level 200, right associativity) : py_scope.
Local Open Scope py_scope.

(** ** Strings

    A Python string is its sequence of characters; the characters
    outside ASCII are taken to be printable ones. *)

(** A hexadecimal digit, in lower case. *)
Definition hex_digit (d : N) : Ascii.ascii :=
  Ascii.ascii_of_N (if (d <? 10)%N then 48 + d else 87 + d)%N.

(** The low [digits] hexadecimal digits of [n], most significant first,
    in front of [acc]. *)
Fixpoint hex_digits (digits : nat) (n : N) (acc : string) : string :=
  match digits with
  | O => acc
  | S d => hex_digits d (n / 16)%N (String (hex_digit (n mod 16)%N) acc)
  end.

Definition apostrophe : Ascii.ascii := Ascii.ascii_of_N 39.
Definition double_quote : Ascii.ascii := Ascii.ascii_of_N 34.
Definition backslash : Ascii.ascii := Ascii.ascii_of_N 92.

Fixpoint contains (c : Ascii.ascii) (s : string) : bool :=
  match s with
  | EmptyString => false
  | String d rest => bool_decide (d = c) || contains c rest
  end.

(** One character of [repr(s)] between the quotes [quote]: the quote and
    the backslash are escaped, as are tab, newline, carriage return and
    the other control characters. *)
Definition repr_char (quote c : Ascii.ascii) : string :=
  let n := Ascii.N_of_ascii c in
  if bool_decide (c = quote) || bool_decide (c = backslash)
  then String backslash (String c "")
  else if bool_decide (n = 9%N) then String backslash "t"
  else if bool_decide (n = 10%N) then String backslash "n"
  else if bool_decide (n = 13%N) then String backslash "r"
  else if (n <? 32)%N || bool_decide (n = 127%N)
  then String backslash ("x" +:+ hex_digits 2 n "")
  else String c "".

Fixpoint repr_chars (quote : Ascii.ascii) (s : string) : string :=
  match s with
  | EmptyString => ""
  | String c rest => repr_char quote c +:+ repr_chars quote rest
  end.

(** [repr(s)]: between apostrophes, or between double quotes when the
    string holds an apostrophe and no double quote. *)
Definition py_repr (s : string) : string :=
  let quote := if contains apostrophe s && negb (contains double_quote s)
               then double_quote else apostrophe in
  String quote (repr_chars quote s +:+ String quote "").

(** ** Strategy and Loader *)

Inductive Strategy := No | Mirrored | MultiWorkerMirrored.

Global Instance Strategy_eq_dec : EqDecision Strategy.
Proof. solve_decision. Defined.

(** The value of each member of the enumeration. *)
Definition Strategy_value (s : Strategy) : string :=
  match s with
  | No => "no"
  | Mirrored => "mirrored"
  | MultiWorkerMirrored => "multi_worker_mirrored"
  end.

Definition Strategy_members : list Strategy := [No; Mirrored; MultiWorkerMirrored].

(** [Strategy(value)]: lookup of a member by value; [enum] raises
    [ValueError] when no member has the value, with the value printed
    by [repr]. *)
Definition Strategy_call (value : string) : Result Strategy :=
  match List.find (λ s, bool_decide (Strategy_value s = value)) Strategy_members with
  | Some s => Ok s
  | None => Err (ValueError (py_repr value +:+ " is not a valid Strategy"))
  end.

(** The strategy classes the loader instantiates. *)
Inductive StrategyClass :=
| NoStrategy
| MirroredStrategy
| MultiWorkerMirroredStrategy.

(** [Loader.strategies], a dictionary from member to class. *)
Definition strategies : list (Strategy * StrategyClass) :=
  [ (No, NoStrategy);
    (Mirrored, MirroredStrategy);
    (MultiWorkerMirrored, MultiWorkerMirroredStrategy) ].

Definition dict_get {K V} `{EqDecision K} (d : list (K * V)) (k : K) : option V :=
  snd <$> List.find (λ kv, bool_decide (fst kv = k)) d.

Definition dict_contains {K V} `{EqDecision K} (d : list (K * V)) (k : K) : bool :=
  match dict_get d k with Some _ => true | None => false end.

(** A loader holds an instance of the selected class (the logger, which
    only receives messages, is left out). *)
Record Loader := mkLoader { strategy : StrategyClass }.

(** [Loader.__init__(strategy)] *)
Definition Loader_init (strategy : string) : Result Loader :=
  match Strategy_call strategy with
  | Err e => Err e
  | Ok member =>
      if negb (dict_contains strategies member)
      then Err (ValueError ("unknown strategy " +:+ strategy))
      else
        match dict_get strategies member with
        | None => Err (KeyError (Strategy_value member))
        | Some strategy_class => Ok (mkLoader strategy_class)
        end
  end.

(** ** The execution runtime *)

(** A [numpy] array: its [shape] tuple and its elements in row-major
    order.  The elements are never inspected by this layer. *)
Record ndarray := mkArray { shape : list Z; flat : list Z }.

(** The execution handle, an object of the runtime.  [input_shape] is
    [None] when the object has no such attribute ([hasattr] is false);
    a dimension of the shape is [None] (unknown) or an integer.
    [truthy] is the value of the object in a boolean context, which is
    what [not self.model] reads: what its [__bool__] answers, else
    whether its [__len__] is not zero, else true. *)
Record Handle := mkHandle {
  input_shape : option (list (option Z));
  handle_predict : ndarray → runtime_error + ndarray;
  truthy : bool;
}.

(** The runtime operation behind [Loader.load]:
    [tf.keras.experimental.load_from_saved_model]. *)
Definition Runtime := string → runtime_error + Handle.

(** [Loader.load(path)]; entering and leaving the strategy scope has no
    effect on the result. *)
Definition Loader_load (runtime : Runtime) (self : Loader) (path : string)
  : Result Handle :=
  match runtime path with
  | inl e => Err (RuntimeError e)
  | inr m => Ok m
  end.

(** ** Model *)

(** A [pathlib] path as its constructor leaves it: the anchor (empty for
    a relative path, ["/"] for an absolute one) and the components, none
    of them empty and none holding a separator. *)
Record Path := mkPath { anchor : string; parts : list string }.

(** [path.joinpath(component)] for one relative component. *)
Definition joinpath (p : Path) (component : string) : Path :=
  mkPath (anchor p) (parts p ++ [component]).

(** [str(path)]: the anchor, then the components joined by the
    separator; the path without anchor and components prints as a dot. *)
Definition Path_str (p : Path) : string :=
  if bool_decide (anchor p = "") && bool_decide (parts p = [])
  then "."
  else anchor p +:+ String.concat "/" (parts p).

(** [path] is kept in its string form, which is all [Loader.load] reads
    of it ([str(path)]). *)
Record Model := mkModel {
  uid : N;
  name : string;
  tag : string;
  created_at : Z;
  loader : option Loader;
  path : string;
  model : option Handle;
}.

(** [Model.__init__]: a new instance has no execution handle. *)
Definition Model_init (uid : N) (name tag : string) (created_at : Z)
    (path : string) (loader : option Loader) : Model :=
  {| uid := uid; name := name; tag := tag; created_at := created_at;
     loader := loader; path := path; model := None |}.

(** [Model.new]; the identifier drawn by [uuid4], its hexadecimal form
    (one path component) and the clock reading are inputs. *)
Definition Model_new (model_id : N) (model_id_hex : string) (now : Z)
    (name tag : string) (root : Path) (loader : option Loader) : Model :=
  let model_path := joinpath root model_id_hex in
  Model_init model_id name tag now (Path_str model_path) loader.

(** [Model.key] *)
Definition key (self : Model) : string * string := (name self, tag self).

(** [Model.loaded]: [self.model is not None] *)
Definition loaded (self : Model) : bool :=
  match model self with Some _ => true | None => false end.

(** [Model.load]: sets the handle and returns [self]. *)
Definition Model_load (runtime : Runtime) (self : Model) : Result Model :=
  match loader self with
  | None => Err (AttributeError "'NoneType' object has no attribute 'load'")
  | Some l =>
      match Loader_load runtime l (path self) with
      | Err e => Err e
      | Ok h =>
          Ok {| uid := uid self; name := name self; tag := tag self;
                created_at := created_at self; loader := loader self;
                path := path self; model := Some h |}
      end
  end.

(** [_, *rest = t]: unpacking needs at least one element. *)
Definition unpack_rest {A} (t : list A) : Result (list A) :=
  match t with
  | [] => Err (ValueError "not enough values to unpack (expected at least 1, got 0)")
  | _ :: rest => Ok rest
  end.

(** [expected_dims != actual_dims], both lists; an integer never equals
    [None]. *)
Definition dims_differ (expected_dims : list (option Z)) (actual_dims : list Z) : bool :=
  negb (bool_decide (expected_dims = Some <$> actual_dims)).

(** Calls made on execution handles, oldest first. *)
Definition Calls := list (Handle * ndarray).

(** [self.model.predict(x)] on the handle [h]. *)
Definition call_handle (h : Handle) (x : ndarray) : M Calls ndarray :=
  λ calls,
    match handle_predict h x with
    | inl e => (Err (RuntimeError e), calls ++ [(h, x)])
    | inr y => (Ok y, calls ++ [(h, x)])
    end.

Definition lift {St A} (r : Result A) : M St A :=
  match r with Ok a => ret a | Err e => raise e end.

(** [not self.model]: [None] is false in a boolean context, a handle
    has the truth value of its class.  [Model.loaded] asks something
    else, whether the attribute is [None]. *)
Definition not_model (self : Model) : bool :=
  match model self with
  | None => true
  | Some h => negb (truthy h)
  end.

(** [Model.predict(x)], where [x] is already the array [numpy.array(x)];
    [tolist()] only changes the representation of the returned array. *)
Definition predict (self : Model) (x : ndarray) : M Calls ndarray :=
  if not_model self then raise (NotLoadedError (name self) (tag self))
  else
    match model self with
    | None => raise (AttributeError "'NoneType' object has no attribute 'predict'")
    | Some h =>
        match input_shape h with
        | Some ishape =>
            let* expected_dims := lift (unpack_rest ishape) in
            let* actual_dims := lift (unpack_rest (shape x)) in
            if dims_differ expected_dims actual_dims
            then raise (InputShapeError expected_dims actual_dims)
            else call_handle h x
        | None => call_handle h x
        end
    end.

(** ** Signals and the storage contract *)

(** The two bound methods the cache hands out as callbacks. *)
Inductive Callback := save_to_cache_method | delete_from_cache_method.

(** Modelled from the spec: [tensorcraft.signal.Signal] is not part of
    the sources at hand; the spec describes it as an ordered collection
    of callbacks that supports registration.  A signal is the list of
    its callbacks in registration order. *)
Definition Signal := list Callback.

(** Modelled from the spec: registration ([Signal.append]) adds the
    callback after those already registered. *)
Definition Signal_append (sig : Signal) (cb : Callback) : Signal := sig ++ [cb].

(** [AbstractStorage]: what a backend with internal state [S] provides.
    [storage_all] is the asynchronous generator [all()]: the finite list
    of artifacts it yields and, when the enumeration stops with an
    exception, that exception. *)
Class AbstractStorage (S : Type) := {
  storage_all : S → (list Model * option Error) * S;
  storage_save : string → string → list Byte.byte → M S Model;
  storage_delete : string → string → M S unit;
  storage_load : string → string → M S Model;
}.

(** The two sides of [self.lock]. *)
Inductive Lock := reader_lock | writer_lock.

(** What is observed of a run, oldest first: the lock taken and given
    back, registrations on the two signals of the storage, and calls of
    its methods. *)
Inductive Event :=
| Acquire (l : Lock)
| Release (l : Lock)
| OnSaveAppend (cb : Callback)
| OnDeleteAppend (cb : Callback)
| StorageAll
| StorageSave (name tag : string) (stream : list Byte.byte)
| StorageDelete (name tag : string)
| StorageLoad (name tag : string).

(** The events that are calls of [storage.load]. *)
Definition is_storage_load (e : Event) : bool :=
  match e with StorageLoad _ _ => true | _ => false end.

(** ** Cache *)

Section Cache.
Context {S : Type} `{!AbstractStorage S}.

(** The storage object handed to [Cache.new]. *)
Record Storage := mkStorage {
  backend : S;
  storage_on_save : Signal;
  storage_on_delete : Signal;
}.

(** A cache together with the storage it wraps: [storage] is the
    backend state of [self.storage], [on_save] and [on_delete] its two
    signals, [models] the dictionary [self.models].  The methods below
    are run by one task at a time: a lock that is asked for is free, so
    taking it and giving it back only show in the trace. *)
Record State := mkState {
  storage : S;
  on_save : Signal;
  on_delete : Signal;
  models : gmap (string * string) Model;
  trace : list Event;
}.

Definition set_models (f : gmap (string * string) Model → gmap (string * string) Model)
    (s : State) : State :=
  mkState (storage s) (on_save s) (on_delete s) (f (models s)) (trace s).

Definition log (e : Event) (s : State) : State :=
  mkState (storage s) (on_save s) (on_delete s) (models s) (trace s ++ [e]).

(** A method of the storage run on the backend of [self.storage]. *)
Definition on_backend {A} (op : M S A) : M State A :=
  λ s, let '(r, b) := op (storage s) in
       (r, mkState b (on_save s) (on_delete s) (models s) (trace s)).

(** A call of a storage method: recorded when it is made, then run. *)
Definition call {A} (e : Event) (op : M S A) : M State A :=
  modify_state (log e) ;; on_backend op.

(** [async with self.lock.<l>: body]; the lock is given back whether
    the body returns or raises. *)
Definition async_with {A} (l : Lock) (body : M State A) : M State A :=
  λ s, let '(r, s') := body (log (Acquire l) s) in (r, log (Release l) s').

(** [self.storage.on_save.append(cb)] *)
Definition on_save_append (cb : Callback) : M State unit :=
  modify_state (λ s, mkState (storage s) (Signal_append (on_save s) cb)
                             (on_delete s) (models s)
                             (trace s ++ [OnSaveAppend cb])).

(** [self.storage.on_delete.append(cb)] *)
Definition on_delete_append (cb : Callback) : M State unit :=
  modify_state (λ s, mkState (storage s) (on_save s)
                             (Signal_append (on_delete s) cb) (models s)
                             (trace s ++ [OnDeleteAppend cb])).

(** The body of the loop of [Cache.all] up to its [yield]. *)
Definition all_step (m : Model) : M State unit :=
  let* s := get_state in
  match models s !! key m with
  | None => modify_state (set_models <[key m := m]>)
  | Some _ => ret tt
  end.

(** The generator and its consumer taking turns over the enumeration:
    the generator runs up to its [yield], the consumer runs [body] on
    the yielded artifact. *)
Fixpoint all_loop {A} (ms : list Model) (body : Model → M State A) : M State (list A) :=
  match ms with
  | [] => ret []
  | m :: rest =>
      all_step m ;;
      let* y := body m in
      let* ys := all_loop rest body in
      ret (y :: ys)
  end.

(** [async for m in self.all(): body m], with the results of the body
    collected.  The generator holds the reader lock from its first step
    to its end, also when the enumeration of the storage ends with an
    exception.  When the body raises, the loop is left with the generator
    suspended at its [yield]: the lock is not given back at that point. *)
Definition async_for_all {A} (body : Model → M State A) : M State (list A) :=
  modify_state (log (Acquire reader_lock)) ;;
  let* enumeration := call StorageAll (λ b, let '(r, b') := storage_all b in (Ok r, b')) in
  let* ys := all_loop (fst enumeration) body in
  modify_state (log (Release reader_lock)) ;;
  match snd enumeration with
  | Some e => raise e
  | None => ret ys
  end.

(** [Cache.all] consumed to its end, as in [[m async for m in all()]]:
    the list of what it yielded. *)
Definition Cache_all : M State (list Model) := async_for_all ret.

(** [Cache.save_to_cache] *)
Definition save_to_cache (m : Model) : M State unit :=
  async_with writer_lock
    (modify_state (set_models <[(name m, tag m) := m]>)).

(** [Cache.save] *)
Definition Cache_save (name tag : string) (model : list Byte.byte) : M State Model :=
  let* m := call (StorageSave name tag model) (storage_save name tag model) in
  save_to_cache m ;;
  ret m.

(** [Cache.delete_from_cache] *)
Definition delete_from_cache (name tag : string) : M State unit :=
  async_with writer_lock
    (let key := (name, tag) in
     let* s := get_state in
     match models s !! key with
     | Some _ => modify_state (set_models (delete key))
     | None => ret tt
     end).

(** [Cache.delete] *)
Definition Cache_delete (name tag : string) : M State unit :=
  delete_from_cache name tag ;;
  call (StorageDelete name tag) (storage_delete name tag).

(** The test of [unsafe_load]:
    [(key not in self.models) or not self.models[key].loaded]. *)
Definition missing_or_unloaded (models : gmap (string * string) Model)
    (key : string * string) : bool :=
  match models !! key with
  | None => true
  | Some m => negb (loaded m)
  end.

(** [self.models[key]] *)
Definition models_getitem (key : string * string) : M State Model :=
  let* s := get_state in
  match models s !! key with
  | Some m => ret m
  | None => raise (KeyError (fst key +:+ ":" +:+ snd key))
  end.

(** [Cache.unsafe_load] *)
Definition unsafe_load (name tag : string) : M State Model :=
  let key := (name, tag) in
  let* s := get_state in
  (if missing_or_unloaded (models s) key
   then
     let* m := call (StorageLoad name tag) (storage_load name tag) in
     modify_state (set_models <[key := m]>)
   else ret tt) ;;
  models_getitem key.

(** [Cache.load] *)
Definition Cache_load (name tag : string) : M State Model :=
  async_with writer_lock (unsafe_load name tag).

(** The attributes [Cache.new] sets on the fresh instance. *)
Definition fresh (storage : Storage) : State :=
  mkState (backend storage) (storage_on_save storage)
          (storage_on_delete storage) ∅ [].

(** [Cache.new]: the outcome and the instance built. *)
Definition Cache_new (storage : Storage) (preload : bool) : Result unit * State :=
  (on_save_append save_to_cache_method ;;
   on_delete_append delete_from_cache_method ;;
   if negb preload then ret tt
   else
     let* _ := async_for_all (λ m, unsafe_load (name m) (tag m)) in
     ret tt)
  (fresh storage).

End Cache.

Arguments Storage S : clear implicits.
Arguments State S : clear implicits.

(** ** Two callers of [Cache.load]

    The event loop runs one task at a time and leaves it only at an
    [await].  A call [Cache.load(name, tag)] awaits twice: for the writer
    lock, and for [storage.load] when the map has no loaded entry.  A
    task is therefore at one of four places, and moves from one to the
    next in one piece.  (Whether the loop may switch right after the lock
    is obtained depends on the lock; the switch is allowed here.) *)
Inductive Task :=
| Waiting              (* at [async with self.lock.writer_lock], not yet inside *)
| Holding              (* inside the block, [unsafe_load] about to run *)
| Loading              (* suspended at [await self.storage.load(name, tag)] *)
| Returned (r : Result Model).

(** Inside the block of the writer lock. *)
Definition in_flight (t : Task) : bool :=
  match t with Holding | Loading => true | _ => false end.

Definition is_loading (t : Task) : bool :=
  match t with Loading => true | _ => false end.

Definition has_failed (t : Task) : bool :=
  match t with Returned (Err _) => true | _ => false end.

Definition has_returned (t : Task) : bool :=
  match t with Returned _ => true | _ => false end.

(** The moves a task still has to make at most. *)
Definition moves_left (t : Task) : nat :=
  match t with Waiting => 3 | Holding => 2 | Loading => 1 | Returned _ => 0 end.

Section Tasks.
Context {S : Type} `{!AbstractStorage S}.

(** Two tasks in [Cache.load(name, tag)] on one cache; [writer_held]
    tells whether the writer lock is taken. *)
Record Config := mkConfig {
  task1 : Task;
  task2 : Task;
  writer_held : bool;
  cache : State S;
}.

(** The part of [unsafe_load] after [await self.storage.load(name, tag)]
    has been entered: the storage answers, the answer is stored under
    the key and read back. *)
Definition resume_load (name tag : string) : M (State S) Model :=
  let key := (name, tag) in
  (let* m := on_backend (storage_load name tag) in
   modify_state (set_models <[key := m]>)) ;;
  models_getitem key.

(** One move of a task in [Cache.load(name, tag)], given the lock and
    the cache: the task, the lock and the cache afterwards, or [None]
    when the task cannot move (it waits for a lock that is taken, or it
    has returned). *)
Definition move (name tag : string) (t : Task) (held : bool) (s : State S)
  : option (Task * bool * State S) :=
  match t with
  | Waiting =>
      if held then None
      else Some (Holding, true, log (Acquire writer_lock) s)
  | Holding =>
      if missing_or_unloaded (models s) (name, tag)
      then Some (Loading, true, log (StorageLoad name tag) s)
      else
        let '(r, s') := models_getitem (name, tag) s in
        Some (Returned r, false, log (Release writer_lock) s')
  | Loading =>
      let '(r, s') := resume_load name tag s in
      Some (Returned r, false, log (Release writer_lock) s')
  | Returned _ => None
  end.

(** The scheduler resumes the first task ([true]) or the second. *)
Definition step (name tag : string) (first : bool) (c : Config) : option Config :=
  if first then
    match move name tag (task1 c) (writer_held c) (cache c) with
    | Some (t, held, s) => Some (mkConfig t (task2 c) held s)
    | None => None
    end
  else
    match move name tag (task2 c) (writer_held c) (cache c) with
    | Some (t, held, s) => Some (mkConfig (task1 c) t held s)
    | None => None
    end.

(** A schedule is the list of the scheduler's choices; resuming a task
    that cannot move changes nothing. *)
Fixpoint run (name tag : string) (schedule : list bool) (c : Config) : Config :=
  match schedule with
  | [] => c
  | first :: rest =>
      run name tag rest
        (match step name tag first c with Some c' => c' | None => c end)
  end.

(** Both calls made, neither yet resumed. *)
Definition start (s : State S) : Config := mkConfig Waiting Waiting false s.

Definition finished (c : Config) : bool :=
  has_returned (task1 c) && has_returned (task2 c).

(** What every schedule keeps true of a task [t], the other task [o],
    the lock and the cache, when the run began in [s0]: the lock is held
    exactly while one task is inside the block, and never by both; while
    a task is suspended in [storage.load] the map has no loaded entry for
    the key; an artifact a task returned is the loaded entry of the key;
    and [storage.load] was called once for each task suspended in it,
    once for each call that failed, and once more if the entry is now
    loaded. *)
Definition load_invariant (name tag : string) (s0 : State S)
    (t o : Task) (held : bool) (s : State S) : Prop :=
  held = in_flight t || in_flight o
  ∧ in_flight t && in_flight o = false
  ∧ (is_loading t || is_loading o = true →
       missing_or_unloaded (models s) (name, tag) = true)
  ∧ (∀ m, t = Returned (Ok m) ∨ o = Returned (Ok m) →
       models s !! (name, tag) = Some m ∧ loaded m = true)
  ∧ ∃ events,
      trace s = trace s0 ++ events
      ∧ List.filter is_storage_load events
        = replicate
            (Nat.b2n (is_loading t) + Nat.b2n (is_loading o)
             + Nat.b2n (has_failed t) + Nat.b2n (has_failed o)
             + Nat.b2n (negb (missing_or_unloaded (models s) (name, tag))))
            (StorageLoad name tag).

(** The invariant on a configuration. *)
Definition holds (name tag : string) (s0 : State S) (c : Config) : Prop :=
  load_invariant name tag s0 (task1 c) (task2 c) (writer_held c) (cache c).

End Tasks.

Arguments Config S : clear implicits.

(** ** An in-memory storage

    A small backend used to run the cache on concrete inputs: artifacts
    are kept in a list, [load] attaches a handle through [Model.load],
    and [delete] can be made to fail. *)
Module Memory.

Record Backend := mkBackend {
  root : Path;
  stored : list Model;
  delete_fails : bool;
}.

(** A handle for a model with one dense input of width 10; it answers
    with its input. *)
Definition dense10 : Handle :=
  mkHandle (Some [None; Some 10%Z]) (λ x, inr x) true.


Definition runtime : Runtime := λ _, inr dense10.

Definition has_key (k : string * string) (m : Model) : bool :=
  bool_decide (key m = k).

Definition all (b : Backend) : (list Model * option Error) * Backend :=
  ((stored b, None), b).

Definition save (name tag : string) (stream : list Byte.byte) : M Backend Model :=
  λ b,
    let m := Model_new (N.of_nat (length (stored b))) "0f" 0 name tag (root b)
               (Some (mkLoader NoStrategy)) in
    (Ok m, mkBackend (root b)
             (List.filter (λ a, negb (has_key (name, tag) a)) (stored b) ++ [m])
             (delete_fails b)).

Definition delete (name tag : string) : M Backend unit :=
  λ b,
    if delete_fails b then (Err (StorageError "permission denied"), b)
    else (Ok tt, mkBackend (root b)
                   (List.filter (λ a, negb (has_key (name, tag) a)) (stored b))
                   (delete_fails b)).

Definition load (name tag : string) : M Backend Model :=
  λ b,
    match List.find (has_key (name, tag)) (stored b) with
    | Some m => (Model_load runtime m, b)
    | None => (Err (StorageError "not found"), b)
    end.

Global Instance storage : AbstractStorage Backend :=
  {| storage_all := all; storage_save := save;
     storage_delete := delete; storage_load := load |}.

(** One artifact, ["a"] tagged ["v1"], already persisted. *)
Definition a_v1 : Model :=
  Model_new 7 "07" 0 "a" "v1" (mkPath "/" ["var"; "models"])
    (Some (mkLoader NoStrategy)).

(** That artifact once [load] has attached the handle. *)
Definition a_v1_loaded : Model :=
  {| uid := 7; name := "a"; tag := "v1"; created_at := 0;
     loader := Some (mkLoader NoStrategy); path := "/var/models/07";
     model := Some dense10 |}.

Definition one_artifact (delete_fails : bool) : Backend :=
  mkBackend (mkPath "/" ["var"; "models"]) [a_v1] delete_fails.

Definition empty_cache (delete_fails : bool) : State Backend :=
  fresh (mkStorage (one_artifact delete_fails) [] []).

End Memory.

(** ** Reading a trace *)

Definition Lock_eqb (a b : Lock) : bool :=
  match a, b with
  | reader_lock, reader_lock | writer_lock, writer_lock => true
  | _, _ => false
  end.

(** The side of the lock that is held after [events], when [held] was
    held before them; [None] when the events ask for the lock while it
    is held, or give back what is not held. *)
Fixpoint lock_scan (held : option Lock) (events : list Event) : option (option Lock) :=
  match events with
  | [] => Some held
  | Acquire l :: rest =>
      match held with
      | None => lock_scan (Some l) rest
      | Some _ => None
      end
  | Release l :: rest =>
      match held with
      | Some l' => if Lock_eqb l l' then lock_scan None rest else None
      | None => None
      end
  | _ :: rest => lock_scan held rest
  end.

(** The calls of [storage.load] for the key [k]. *)
Definition is_load_of (k : string * string) (e : Event) : bool :=
  match e with
  | StorageLoad name tag => bool_decide ((name, tag) = k)
  | _ => false
  end.

(** ** Histories of calls *)

(** A call of one of the methods of the cache that change its map. *)
Inductive Request :=
| ReqAll
| ReqSave (name tag : string) (stream : list Byte.byte)
| ReqDelete (name tag : string)
| ReqLoad (name tag : string)
| ReqSaveToCache (m : Model)
| ReqDeleteFromCache (name tag : string).

Section Histories.
Context {S : Type} `{!AbstractStorage S}.

(** The state a call leaves, whether it returned or raised. *)
Definition serve (r : Request) (s : State S) : State S :=
  match r with
  | ReqAll => snd (Cache_all s)
  | ReqSave name tag stream => snd (Cache_save name tag stream s)
  | ReqDelete name tag => snd (Cache_delete name tag s)
  | ReqLoad name tag => snd (Cache_load name tag s)
  | ReqSaveToCache m => snd (save_to_cache m s)
  | ReqDeleteFromCache name tag => snd (delete_from_cache name tag s)
  end.

(** Calls made one after the other, each run to its end. *)
Definition history (rs : list Request) (s : State S) : State S :=
  fold_left (λ s r, serve r s) rs s.

End Histories.

(** ** A storage out of reach

    Every call raises; used to run the cache on failures. *)
Module Failing.

Definition refused : Error := StorageError "connection refused".

Global Instance storage : AbstractStorage unit :=
  {| storage_all := λ b, (([], Some refused), b);
     storage_save := λ _ _ _, raise refused;
     storage_delete := λ _ _, raise refused;
     storage_load := λ _ _, raise refused |}.

Definition empty_cache : State unit := fresh (mkStorage tt [] []).

End Failing.

(** ** A storage that resolves ["latest"]

    [load] of the tag ["latest"] answers with the artifact of that name
    that was stored last, under the tag it was stored with. *)
Module Latest.

Record Backend := mkBackend { stored : list Model }.

Definition matches (n t : string) (a : Model) : bool :=
  bool_decide (name a = n)
  && (bool_decide (t = "latest") || bool_decide (tag a = t)).

Definition all (b : Backend) : (list Model * option Error) * Backend :=
  ((stored b, None), b).

Definition save (name tag : string) (stream : list Byte.byte) : M Backend Model :=
  λ b,
    let m := Model_new (N.of_nat (length (stored b))) "0f" 0 name tag
               (mkPath "/" ["var"; "models"]) (Some (mkLoader NoStrategy)) in
    (Ok m, mkBackend (stored b ++ [m])).

Definition delete (name tag : string) : M Backend unit :=
  λ b, (Ok tt, mkBackend (List.filter (λ a, negb (matches name tag a)) (stored b))).

Definition load (name tag : string) : M Backend Model :=
  λ b,
    match List.find (matches name tag) (rev (stored b)) with
    | Some m => (Model_load Memory.runtime m, b)
    | None => (Err (StorageError "not found"), b)
    end.

Global Instance storage : AbstractStorage Backend :=
  {| storage_all := all; storage_save := save;
     storage_delete := delete; storage_load := load |}.

Definition empty_cache : State Backend := fresh (mkStorage (mkBackend [Memory.a_v1]) [] []).

End Latest.

(** ** The printed and the dictionary form of a model *)

(** [Model.__str__] *)
Definition Model_str (self : Model) : string := name self +:+ ":" +:+ tag self.

(** A value held by a dictionary of keyword arguments. *)
Inductive PyValue :=
| PyStr (s : string)
| PyNumber (z : Z).

(** [UUID.hex]: the identifier as 32 hexadecimal digits. *)
Definition uuid_hex (uid : N) : string := hex_digits 32 uid "".

(** [Model.to_dict] *)
Definition to_dict (self : Model) : list (string * PyValue) :=
  [ ("id", PyStr (uuid_hex (uid self)));
    ("name", PyStr (name self));
    ("tag", PyStr (tag self));
    ("created_at", PyNumber (created_at self)) ].

(** The parameters of [Model.__init__] after [self], and those among
    them without a default. *)
Definition init_parameters : list string :=
  ["uid"; "name"; "tag"; "created_at"; "path"; "loader"].
Definition init_required : list string := ["uid"; "name"; "tag"; "created_at"].

(** The outcome of calling the class with the keywords of a dictionary,
    as far as the binding of the keywords to the parameters goes: a [TypeError] for a keyword that is
    no parameter (the first one met) or else for parameters without
    default that got no value, or the arguments [__init__] runs with. *)
Inductive Binding :=
| UnexpectedKeyword (keyword : string)
| MissingArguments (parameters : list string)
| Bound (arguments : list (string * PyValue)).

(** [Model.from_dict], which calls the class with the keywords it
    received, up to the body of [__init__]. *)
Definition from_dict (kwargs : list (string * PyValue)) : Binding :=
  match List.find (λ kv, negb (bool_decide (fst kv ∈ init_parameters))) kwargs with
  | Some (keyword, _) => UnexpectedKeyword keyword
  | None =>
      match List.filter (λ p, negb (dict_contains kwargs p)) init_required with
      | [] => Bound kwargs
      | missing => MissingArguments missing
      end
  end.

(** Whether a string holds a colon. *)
Fixpoint has_colon (s : string) : bool :=
  match s with
  | EmptyString => false
  | String c rest => bool_decide (String c "" = ":") || has_colon rest
  end.

(** * Properties *)

(** ** Loader *)

Lemma Strategy_call_value (s : Strategy) : Strategy_call (Strategy_value s) = Ok s.
Proof. by destruct s. Qed.

Lemma Strategy_call_unknown (value : string) :
  (∀ s, Strategy_value s ≠ value) →
  Strategy_call value = Err (ValueError (py_repr value +:+ " is not a valid Strategy")).
Proof.
  intros Hnone. unfold Strategy_call, Strategy_members. cbn [List.find].
  rewrite !bool_decide_eq_false_2 by apply Hnone. done.
Qed.

(** Every member of the enumeration is a key of [Loader.strategies], so
    the explicit [raise] of [Loader.__init__] is never reached: an
    unknown name is already refused by the enumeration. *)
Lemma strategies_total (s : Strategy) : dict_contains strategies s = true.
Proof. by destruct s. Qed.

(** C7. Constructing a loader with a name outside
    {"no", "mirrored", "multi_worker_mirrored"} fails at construction
    with a [ValueError]: no loader exists, so nothing can be loaded with
    it.  Each of the three names yields a loader holding the strategy of
    that name. *)
Theorem Loader_init_fail_fast (strategy : string) :
  (strategy ∉ ["no"; "mirrored"; "multi_worker_mirrored"] →
     Loader_init strategy
       = Err (ValueError (py_repr strategy +:+ " is not a valid Strategy")))
  ∧ (strategy = "no" → Loader_init strategy = Ok (mkLoader NoStrategy))
  ∧ (strategy = "mirrored" → Loader_init strategy = Ok (mkLoader MirroredStrategy))
  ∧ (strategy = "multi_worker_mirrored" →
       Loader_init strategy = Ok (mkLoader MultiWorkerMirroredStrategy)).
Proof.
  split; [| by repeat split; intros ->].
  intros Hunknown. unfold Loader_init. rewrite Strategy_call_unknown; [done |].
  intros s Hs. apply Hunknown. rewrite <- Hs.
  destruct s; cbn [Strategy_value]; set_solver.
Qed.

Lemma Loader_init_fail_fast_witness :
  ("tpu" ∉ ["no"; "mirrored"; "multi_worker_mirrored"])
  ∧ Loader_init "tpu" = Err (ValueError "'tpu' is not a valid Strategy").
Proof.
  assert (H : "tpu" ∉ ["no"; "mirrored"; "multi_worker_mirrored"]).
  { rewrite !not_elem_of_cons. repeat split; [done | done | done |].
    apply not_elem_of_nil. }
  split; [exact H |]. exact (proj1 (Loader_init_fail_fast "tpu") H).
Defined.

(** ** Model.predict *)

Lemma dims_differ_true (expected : list (option Z)) (actual : list Z) :
  dims_differ expected actual = true ↔ expected ≠ Some <$> actual.
Proof.
  unfold dims_differ. rewrite negb_true_iff, bool_decide_eq_false. done.
Qed.


(** The call on the handle: its answer or its error, and one more entry
    in the record of calls. *)
Lemma call_handle_eq (h : Handle) (x : ndarray) (calls : Calls) :
  call_handle h x calls
    = (match handle_predict h x with
       | inr y => Ok y
       | inl re => Err (RuntimeError re)
       end, calls ++ [(h, x)]).
Proof. unfold call_handle. by destruct (handle_predict h x). Qed.

(** Delegation ends in a value or in an error of the runtime, and is
    recorded. *)
Lemma call_handle_spec (h : Handle) (x : ndarray) (calls : Calls) :
  snd (call_handle h x calls) = calls ++ [(h, x)]
  ∧ ((∃ y, fst (call_handle h x calls) = Ok y)
     ∨ (∃ e, fst (call_handle h x calls) = Err (RuntimeError e))).
Proof.
  unfold call_handle. destruct (handle_predict h x); cbn; eauto.
Qed.

(** What [not self.model] answers, by the content of the attribute. *)
Lemma not_model_None (self : Model) : model self = None → not_model self = true.
Proof. unfold not_model. by intros ->. Qed.

Lemma not_model_Some (self : Model) (h : Handle) :
  model self = Some h → not_model self = negb (truthy h).
Proof. unfold not_model. by intros ->. Qed.

(** The first statement of [predict]. *)
Lemma predict_refused (self : Model) (x : ndarray) (calls : Calls) :
  not_model self = true →
  predict self x calls = (Err (NotLoadedError (name self) (tag self)), calls).
Proof. intros Hnot. unfold predict. by rewrite Hnot. Qed.

(** What follows it, for a handle that passed. *)
Lemma predict_passed (self : Model) (h : Handle) (x : ndarray) (calls : Calls) :
  model self = Some h → truthy h = true →
  predict self x calls
    = match input_shape h with
      | Some ishape =>
          match ishape, shape x with
          | _ :: expected_dims, _ :: actual_dims =>
              if dims_differ expected_dims actual_dims
              then (Err (InputShapeError expected_dims actual_dims), calls)
              else call_handle h x calls
          | _, _ =>
              (Err (ValueError "not enough values to unpack (expected at least 1, got 0)"),
               calls)
          end
      | None => call_handle h x calls
      end.
Proof.
  intros Hm Ht. unfold predict. rewrite (not_model_Some self h Hm), Hm, Ht.
  cbn [negb]. destruct (input_shape h) as [ishape |]; [| done].
  unfold bind, lift. destruct ishape as [| d expected]; [done |].
  cbn. destruct (shape x) as [| b actual]; [done |]. cbn.
  by destruct (dims_differ expected actual).
Qed.

Lemma predict_with_handle (self : Model) (h : Handle) (x : ndarray) (calls : Calls) :
  model self = Some h → truthy h = true →
  predict self x calls = call_handle h x calls
  ∨ (snd (predict self x calls) = calls
     ∧ ((∃ msg, fst (predict self x calls) = Err (ValueError msg))
        ∨ ∃ e a, fst (predict self x calls) = Err (InputShapeError e a))).
Proof.
  intros Hm Ht. rewrite (predict_passed self h x calls Hm Ht).
  destruct (input_shape h) as [ishape |]; [| by left].
  destruct ishape as [| d expected]; [right; eauto |].
  destruct (shape x) as [| b actual]; [right; eauto |].
  destruct (dims_differ expected actual); [right; eauto | by left].
Qed.

(** A handle that passed the first statement never gets
    [NotLoadedError]. *)
Lemma predict_passed_not_refused (self : Model) (h : Handle) (x : ndarray)
    (calls : Calls) (n t : string) :
  model self = Some h → truthy h = true →
  fst (predict self x calls) ≠ Err (NotLoadedError n t).
Proof.
  intros Hm Ht Hr.
  destruct (predict_with_handle self h x calls Hm Ht)
    as [Heq | (_ & [(msg & Hv) | (e & a & Hi)])]; [| congruence | congruence].
  rewrite Heq in Hr.
  destruct (call_handle_spec h x calls) as [_ [[y Hy] | [e Hy]]]; congruence.
Qed.







(** ** Cache *)

Section CacheProperties.
Context {S : Type} `{!AbstractStorage S}.
Implicit Types (s : State S) (m a : Model) (name tag : string).

(** *** One step at a time *)

Lemma call_eq {A} (e : Event) (op : M S A) s :
  call e op s
    = (fst (op (storage s)),
       mkState (snd (op (storage s))) (on_save s) (on_delete s) (models s)
               (trace s ++ [e])).
Proof.
  unfold call, bind, modify_state, on_backend, log. cbn.
  by destruct (op (storage s)).
Qed.

Lemma all_step_eq m s :
  all_step m s
    = (Ok tt, match models s !! key m with
              | None => set_models <[key m := m]> s
              | Some _ => s
              end).
Proof.
  unfold all_step, bind, get_state. by destruct (models s !! key m).
Qed.

Lemma missing_or_unloaded_true (ms : gmap (string * string) Model) (k : string * string) :
  missing_or_unloaded ms k = true
    ↔ ms !! k = None ∨ (∃ a, ms !! k = Some a ∧ loaded a = false).
Proof.
  unfold missing_or_unloaded. destruct (ms !! k) as [a |].
  - rewrite negb_true_iff. split; [eauto |]. by intros [? | (? & [= ->] & ?)].
  - split; [by left | done].
Qed.

Lemma missing_or_unloaded_false (ms : gmap (string * string) Model) (k : string * string) :
  missing_or_unloaded ms k = false ↔ ∃ a, ms !! k = Some a ∧ loaded a = true.
Proof.
  unfold missing_or_unloaded. destruct (ms !! k) as [a |].
  - rewrite negb_false_iff. split; [eauto |]. by intros (? & [= ->] & ?).
  - split; [done |]. by intros (? & ? & ?).
Qed.

Lemma unsafe_load_hit name tag s a :
  models s !! (name, tag) = Some a → loaded a = true →
  unsafe_load name tag s = (Ok a, s).
Proof.
  intros Ha Hl. unfold unsafe_load, bind, get_state, missing_or_unloaded.
  rewrite Ha, Hl. cbn. unfold models_getitem, bind, get_state. by rewrite Ha.
Qed.

Lemma unsafe_load_miss name tag s :
  missing_or_unloaded (models s) (name, tag) = true →
  unsafe_load name tag s
    = match storage_load name tag (storage s) with
      | (Ok m, b) =>
          (Ok m, mkState b (on_save s) (on_delete s)
                   (<[(name, tag) := m]> (models s))
                   (trace s ++ [StorageLoad name tag]))
      | (Err e, b) =>
          (Err e, mkState b (on_save s) (on_delete s) (models s)
                    (trace s ++ [StorageLoad name tag]))
      end.
Proof.
  intros Hmiss. unfold unsafe_load, bind, get_state. rewrite Hmiss, call_eq.
  destruct (storage_load name tag (storage s)) as [[m | e] b]; [| done].
  cbn. unfold models_getitem, bind, get_state. cbn. by rewrite lookup_insert_eq.
Qed.

(** What [unsafe_load] returns is the entry of the key afterwards. *)
Lemma unsafe_load_Ok name tag s m s' :
  unsafe_load name tag s = (Ok m, s') → models s' !! (name, tag) = Some m.
Proof.
  destruct (missing_or_unloaded (models s) (name, tag)) eqn:Hmiss.
  - rewrite unsafe_load_miss by done.
    destruct (storage_load name tag (storage s)) as [[m' | e] b]; [| done].
    intros [= <- <-]. cbn. by rewrite lookup_insert_eq.
  - apply missing_or_unloaded_false in Hmiss as (a & Ha & Hl).
    rewrite (unsafe_load_hit _ _ _ a) by done. by intros [= <- <-].
Qed.

(** *** Loading *)

Lemma Cache_load_hit name tag s a :
  models s !! (name, tag) = Some a → loaded a = true →
  Cache_load name tag s
    = (Ok a, mkState (storage s) (on_save s) (on_delete s) (models s)
               (trace s ++ [Acquire writer_lock; Release writer_lock])).
Proof.
  intros Ha Hl. unfold Cache_load, async_with.
  rewrite (unsafe_load_hit _ _ _ a) by done. unfold log. cbn.
  by rewrite <- app_assoc.
Qed.

Lemma Cache_load_miss name tag s :
  missing_or_unloaded (models s) (name, tag) = true →
  trace (snd (Cache_load name tag s))
    = trace s ++ [Acquire writer_lock; StorageLoad name tag; Release writer_lock].
Proof.
  intros Hmiss. unfold Cache_load, async_with. rewrite unsafe_load_miss by done.
  cbn [log storage trace models on_save on_delete].
  destruct (storage_load name tag (storage s)) as [[m | e] b];
    cbn; by rewrite <- !app_assoc.
Qed.

(** C1. When [Cache.load] returns an artifact that is loaded, a second
    [Cache.load] for the same key returns that very artifact (with it,
    the same execution handle); it leaves the map and the storage as
    they were and only takes and gives back the writer lock, without a
    call of [storage.load].  In general [storage.load] is called, once
    and under the writer lock, exactly when the key is absent from the
    map or its entry is not loaded. *)
Theorem Cache_load_idempotent name tag s s1 m
    (Hfirst : Cache_load name tag s = (Ok m, s1))
    (Hloaded : loaded m = true) :
  (let s2 := snd (Cache_load name tag s1) in
   fst (Cache_load name tag s1) = Ok m
   ∧ models s2 = models s1
   ∧ storage s2 = storage s1
   ∧ trace s2 = trace s1 ++ [Acquire writer_lock; Release writer_lock])
  ∧ (∀ s0,
       (models s0 !! (name, tag) = None
          ∨ (∃ a, models s0 !! (name, tag) = Some a ∧ loaded a = false) →
        trace (snd (Cache_load name tag s0))
          = trace s0 ++ [Acquire writer_lock; StorageLoad name tag;
                         Release writer_lock])
       ∧ ((∃ a, models s0 !! (name, tag) = Some a ∧ loaded a = true) →
          trace (snd (Cache_load name tag s0))
            = trace s0 ++ [Acquire writer_lock; Release writer_lock])).
Proof.
  split.
  - assert (Hentry : models s1 !! (name, tag) = Some m).
    { unfold Cache_load, async_with in Hfirst.
      destruct (unsafe_load name tag _) as [r s'] eqn:Hrun.
      injection Hfirst as -> <-. by apply unsafe_load_Ok in Hrun. }
    cbn zeta. by rewrite (Cache_load_hit _ _ _ m).
  - intros s0. split.
    + intros Hmiss%missing_or_unloaded_true. by apply Cache_load_miss.
    + intros (a & Ha & Hl). by rewrite (Cache_load_hit _ _ _ a).
Qed.

(** *** Listing *)

(** The loop of [Cache.all] when the consumer only collects. *)
Lemma all_loop_ret (ms : list Model) s :
  ∃ s', all_loop ms ret s = (Ok ms, s')
    ∧ storage s' = storage s ∧ on_save s' = on_save s
    ∧ on_delete s' = on_delete s ∧ trace s' = trace s
    ∧ (∀ k a, models s !! k = Some a → models s' !! k = Some a)
    ∧ (∀ k, models s !! k = None →
         models s' !! k = List.find (λ a, bool_decide (key a = k)) ms).
Proof.
  revert s. induction ms as [| m ms IH]; intros s.
  { exists s. cbn. repeat split; try done. }
  cbn [all_loop]. unfold bind at 1. rewrite all_step_eq.
  set (s1 := match models s !! key m with
             | None => set_models <[key m := m]> s
             | Some _ => s
             end).
  destruct (IH s1) as (s' & Hrun & Hb & Hsv & Hdl & Htr & Hkeep & Hnew).
  exists s'. unfold bind, ret at 1. rewrite Hrun. cbn [ret].
  assert (Hs1 : storage s1 = storage s ∧ on_save s1 = on_save s
                ∧ on_delete s1 = on_delete s ∧ trace s1 = trace s).
  { subst s1. by destruct (models s !! key m). }
  destruct Hs1 as (Hb1 & Hsv1 & Hdl1 & Htr1).
  split; [done |]. repeat split; try congruence.
  - intros k a Hk. apply Hkeep. subst s1.
    destruct (models s !! key m) eqn:Hm; [done |]. cbn.
    rewrite lookup_insert_ne; [done |]. congruence.
  - intros k Hk. cbn [List.find]. case_bool_decide as Hkey.
    + subst k. apply Hkeep. subst s1. rewrite Hk. cbn. apply lookup_insert_eq.
    + apply Hnew. subst s1. destruct (models s !! key m) eqn:Hm; [done |].
      cbn. by rewrite lookup_insert_ne.
Qed.

Lemma Cache_all_eq s :
  ∃ s', all_loop (fst (fst (storage_all (storage s)))) ret
          (mkState (snd (storage_all (storage s))) (on_save s) (on_delete s)
                   (models s) (trace s ++ [Acquire reader_lock; StorageAll]))
        = (Ok (fst (fst (storage_all (storage s)))), s')
    ∧ Cache_all s
        = (match snd (fst (storage_all (storage s))) with
           | Some e => Err e
           | None => Ok (fst (fst (storage_all (storage s))))
           end, log (Release reader_lock) s').
Proof.
  unfold Cache_all, async_for_all, bind, modify_state. rewrite call_eq.
  cbn [log storage on_save on_delete models trace].
  destruct (storage_all (storage s)) as [[ms err] b] eqn:Hall. cbn [fst snd].
  rewrite <- app_assoc. cbn [app].
  destruct (all_loop_ret ms (mkState b (on_save s) (on_delete s) (models s)
                               (trace s ++ [Acquire reader_lock; StorageAll])))
    as (s' & Hrun & _).
  exists s'. rewrite Hrun. split; [done |]. by destruct err.
Qed.

(** The listing keeps the entries of the map and logs one reader-lock
    section around one enumeration. *)
Lemma Cache_all_keeps s :
  (∀ k a, models s !! k = Some a → models (snd (Cache_all s)) !! k = Some a)
  ∧ trace (snd (Cache_all s))
    = trace s ++ [Acquire reader_lock; StorageAll; Release reader_lock].
Proof.
  destruct (Cache_all_eq s) as (s' & Hrun & ->). cbn [snd log models trace].
  destruct (all_loop_ret (fst (fst (storage_all (storage s))))
              (mkState (snd (storage_all (storage s))) (on_save s) (on_delete s)
                       (models s) (trace s ++ [Acquire reader_lock; StorageAll])))
    as (s2 & Hrun2 & _ & _ & _ & Htr & Hkeep & _).
  rewrite Hrun in Hrun2. injection Hrun2 as <-.
  split; [exact Hkeep |]. rewrite Htr. cbn. by rewrite <- app_assoc.
Qed.

(** C2. Consuming [Cache.all] leaves every entry that was in the map
    as it was (same artifact, hence same loaded state and same handle),
    whatever the storage enumerates and whether or not the enumeration
    ends with an exception.  Every enumerated key that was absent is
    mapped to an artifact of the enumeration with that key, stored as
    it was enumerated: the cache does not load it, and it is unloaded
    as soon as the storage lists its artifacts unloaded. *)
Theorem Cache_all_keeps_entries s :
  let enumeration := fst (fst (storage_all (storage s))) in
  let s' := snd (Cache_all s) in
  (∀ k a, models s !! k = Some a → models s' !! k = Some a)
  ∧ (∀ m, m ∈ enumeration → models s !! key m = None →
       ∃ m', m' ∈ enumeration ∧ key m' = key m
             ∧ models s' !! key m = Some m'
             ∧ ((∀ a, a ∈ enumeration → loaded a = false) → loaded m' = false))
  ∧ trace s' = trace s ++ [Acquire reader_lock; StorageAll; Release reader_lock].
Proof.
  intros enumeration s'. subst s'.
  destruct (Cache_all_eq s) as (s' & Hrun & ->). cbn [snd log models trace].
  destruct (all_loop_ret enumeration
              (mkState (snd (storage_all (storage s))) (on_save s) (on_delete s)
                       (models s) (trace s ++ [Acquire reader_lock; StorageAll])))
    as (s2 & Hrun2 & _ & _ & _ & Htr & Hkeep & Hnew).
  subst enumeration. rewrite Hrun in Hrun2. injection Hrun2 as <-.
  split; [exact Hkeep |]. split.
  - intros m Hin Hnone. specialize (Hnew (key m) Hnone). cbn in Hnew.
    destruct (List.find _ _) as [m' |] eqn:Hfind.
    + apply find_some in Hfind as [Hin' Hkey%bool_decide_eq_true].
      apply list_elem_of_In in Hin'. exists m'. eauto.
    + apply list_elem_of_In in Hin.
      eapply find_none in Hfind; [| exact Hin]. cbn in Hfind.
      by apply bool_decide_eq_false in Hfind.
  - rewrite Htr. cbn. by rewrite <- app_assoc.
Qed.

(** *** Saving *)

Lemma save_to_cache_eq m s :
  save_to_cache m s
    = (Ok tt, mkState (storage s) (on_save s) (on_delete s)
                (<[key m := m]> (models s))
                (trace s ++ [Acquire writer_lock; Release writer_lock])).
Proof.
  unfold save_to_cache, async_with, modify_state, set_models, log. cbn.
  by rewrite <- app_assoc.
Qed.

Lemma Cache_save_eq name tag (stream : list Byte.byte) s :
  Cache_save name tag stream s
    = match storage_save name tag stream (storage s) with
      | (Ok m, b) =>
          (Ok m, mkState b (on_save s) (on_delete s)
                   (<[key m := m]> (models s))
                   (trace s ++ [StorageSave name tag stream;
                                Acquire writer_lock; Release writer_lock]))
      | (Err e, b) =>
          (Err e, mkState b (on_save s) (on_delete s) (models s)
                    (trace s ++ [StorageSave name tag stream]))
      end.
Proof.
  unfold Cache_save, bind. rewrite call_eq.
  destruct (storage_save name tag stream (storage s)) as [[m | e] b]; [| done].
  cbn [fst snd]. rewrite save_to_cache_eq. cbn. by rewrite <- app_assoc.
Qed.

(** C4. When [storage.save] returns an artifact (carrying the name and
    tag it was saved under), [Cache.save] returns that artifact and the
    map sends the key to it, whatever was there before; the other keys
    are untouched and the storage was called once.  A listing that
    follows calls the storage once more, for the enumeration only,
    yields what the storage enumerates and leaves the entry in place. *)
Theorem Cache_save_registers name tag (stream : list Byte.byte) s m (b : S)
    (Hsave : storage_save name tag stream (storage s) = (Ok m, b))
    (Hkey : key m = (name, tag)) :
  let s' := snd (Cache_save name tag stream s) in
  let s'' := snd (Cache_all s') in
  fst (Cache_save name tag stream s) = Ok m
  ∧ models s' !! (name, tag) = Some m
  ∧ (∀ k, k ≠ (name, tag) → models s' !! k = models s !! k)
  ∧ trace s' = trace s ++ [StorageSave name tag stream;
                           Acquire writer_lock; Release writer_lock]
  ∧ trace s'' = trace s' ++ [Acquire reader_lock; StorageAll; Release reader_lock]
  ∧ models s'' !! (name, tag) = Some m
  ∧ (snd (fst (storage_all b)) = None →
       fst (Cache_all s') = Ok (fst (fst (storage_all b)))).
Proof.
  intros s' s''. subst s'' s'. rewrite Cache_save_eq, Hsave. cbn [fst snd].
  rewrite Hkey.
  set (s' := mkState _ _ _ _ _).
  assert (Hm : models s' !! (name, tag) = Some m) by apply lookup_insert_eq.
  destruct (Cache_all_keeps s') as (Hkeep & Htr).
  repeat split; try done.
  - intros k Hk. subst s'. cbn. by rewrite lookup_insert_ne.
  - by apply Hkeep.
  - intros Hnone. destruct (Cache_all_eq s') as (s2 & _ & ->). cbn [fst].
    subst s'. cbn [storage]. by rewrite Hnone.
Qed.

(** C10. A loaded entry does not survive a save of its key: once
    [storage.save] has returned a new artifact for the key, which has
    no execution handle, the entry of the key is that artifact and
    reports [loaded = false]; the same holds when the callback
    [save_to_cache] receives a newly constructed artifact for the key. *)
Theorem Cache_save_downgrades name tag s old
    (Hold : models s !! (name, tag) = Some old)
    (Hwas : loaded old = true) :
  (∀ (stream : list Byte.byte) m (b : S),
     storage_save name tag stream (storage s) = (Ok m, b) →
     key m = (name, tag) → model m = None →
     models (snd (Cache_save name tag stream s)) !! (name, tag) = Some m
     ∧ loaded m = false)
  ∧ (∀ uid created_at path loader,
       let m := Model_init uid name tag created_at path loader in
       models (snd (save_to_cache m s)) !! (name, tag) = Some m
       ∧ loaded m = false).
Proof.
  split.
  - intros stream m b Hsave Hkey Hnone.
    rewrite Cache_save_eq, Hsave. cbn [snd models].
    rewrite Hkey, lookup_insert_eq.
    unfold loaded. by rewrite Hnone.
  - intros uid0 created path0 loader0 m. subst m.
    rewrite save_to_cache_eq. cbn. by rewrite lookup_insert_eq.
Qed.

(** *** Deleting *)

Lemma delete_from_cache_eq name tag s :
  delete_from_cache name tag s
    = (Ok tt, mkState (storage s) (on_save s) (on_delete s)
                (delete (name, tag) (models s))
                (trace s ++ [Acquire writer_lock; Release writer_lock])).
Proof.
  unfold delete_from_cache, async_with, bind, get_state.
  cbn [log models storage on_save on_delete trace].
  destruct (models s !! (name, tag)) eqn:Hk;
    unfold modify_state, ret, set_models, log; cbn; rewrite <- app_assoc; [done |].
  by rewrite delete_id.
Qed.

Lemma Cache_delete_eq name tag s :
  Cache_delete name tag s
    = (fst (storage_delete name tag (storage s)),
       mkState (snd (storage_delete name tag (storage s))) (on_save s)
               (on_delete s) (delete (name, tag) (models s))
               (trace s ++ [Acquire writer_lock; Release writer_lock;
                            StorageDelete name tag])).
Proof.
  unfold Cache_delete, bind. rewrite delete_from_cache_eq, call_eq. cbn.
  by rewrite <- app_assoc.
Qed.

(** C3. [Cache.delete] removes the key from the map, under the writer
    lock, and only then calls [storage.delete]: whatever that call does,
    also when it raises, the key is absent afterwards, the other entries
    are as before, and the outcome is that of [storage.delete].  A
    [load] of the key that follows finds nothing in the map and calls
    the storage; a listing that follows yields what the storage
    enumerates. *)
Theorem Cache_delete_removes_first name tag s :
  let r := fst (Cache_delete name tag s) in
  let s' := snd (Cache_delete name tag s) in
  models s' !! (name, tag) = None
  ∧ (∀ k, k ≠ (name, tag) → models s' !! k = models s !! k)
  ∧ r = fst (storage_delete name tag (storage s))
  ∧ (∀ e, fst (storage_delete name tag (storage s)) = Err e →
       r = Err e ∧ models s' !! (name, tag) = None)
  ∧ trace s' = trace s ++ [Acquire writer_lock; Release writer_lock;
                           StorageDelete name tag]
  ∧ trace (snd (Cache_load name tag s'))
      = trace s' ++ [Acquire writer_lock; StorageLoad name tag; Release writer_lock]
  ∧ fst (Cache_all s')
      = match snd (fst (storage_all (storage s'))) with
        | Some e => Err e
        | None => Ok (fst (fst (storage_all (storage s'))))
        end.
Proof.
  intros r s'. subst r s'. rewrite Cache_delete_eq. cbn [fst snd].
  set (s' := mkState _ _ _ _ _).
  assert (Hgone : models s' !! (name, tag) = None) by apply lookup_delete_eq.
  repeat split; try done.
  - intros k Hk. subst s'. cbn. by rewrite lookup_delete_ne.
  - apply Cache_load_miss. apply missing_or_unloaded_true. by left.
  - by destruct (Cache_all_eq s') as (s2 & _ & ->).
Qed.

(** *** Construction with preload *)

Section Preload.

(** The contract of [AbstractStorage.load]: what it returns is a
    loaded model. *)
Hypothesis load_returns_loaded :
  ∀ name tag (b b' : S) m, storage_load name tag b = (Ok m, b') → loaded m = true.

(** One turn of the loop of [Cache.new]: the generator has inserted the
    artifact if its key was free, the body loads the key. *)
Lemma preload_turn m s (r : Result Model) s' :
  unsafe_load (name m) (tag m)
    (match models s !! key m with
     | None => set_models <[key m := m]> s
     | Some _ => s
     end) = (r, s') →
  on_save s' = on_save s
  ∧ on_delete s' = on_delete s
  ∧ (∃ loads, trace s' = trace s ++ loads
              ∧ forallb is_storage_load loads = true)
  ∧ (∀ k a, models s !! k = Some a → loaded a = true →
       ∃ a', models s' !! k = Some a' ∧ loaded a' = true)
  ∧ (∀ y, r = Ok y → ∃ a, models s' !! key m = Some a ∧ loaded a = true).
Proof.
  set (s1 := match models s !! key m with
             | None => set_models <[key m := m]> s
             | Some _ => s
             end).
  assert (Hs1 : on_save s1 = on_save s ∧ on_delete s1 = on_delete s
                ∧ trace s1 = trace s
                ∧ ∀ k a, models s !! k = Some a → models s1 !! k = Some a).
  { subst s1. destruct (models s !! key m) eqn:Hm; [done |].
    repeat split; try done. intros k a Hk. cbn.
    rewrite lookup_insert_ne; [done |]. congruence. }
  destruct Hs1 as (Hsv & Hdl & Htr & Hkeep).
  destruct (missing_or_unloaded (models s1) (name m, tag m)) eqn:Hmiss.
  - rewrite unsafe_load_miss by done.
    destruct (storage_load (name m) (tag m) (storage s1)) as [[a | e] b] eqn:Hload;
      intros [= <- <-]; cbn; rewrite Htr.
    + apply load_returns_loaded in Hload.
      repeat split; try done.
      * by exists [StorageLoad (name m) (tag m)].
      * intros k a0 Hk Hl. destruct (decide ((name m, tag m) = k)) as [<- | Hne].
        -- exists a. by rewrite lookup_insert_eq.
        -- exists a0. rewrite lookup_insert_ne by done. eauto.
      * intros _ _. exists a. by rewrite lookup_insert_eq.
    + repeat split; try done.
      * by exists [StorageLoad (name m) (tag m)].
      * intros k a0 Hk Hl. eauto.
  - apply missing_or_unloaded_false in Hmiss as (a & Ha & Hl).
    rewrite (unsafe_load_hit _ _ _ a) by done. intros [= <- <-].
    repeat split; try done.
    + exists []. by rewrite app_nil_r.
    + intros k a0 Hk Hl0. eauto.
    + intros _ _. by exists a.
Qed.

Lemma preload_loop (ms : list Model) s (r : Result (list Model)) s' :
  all_loop ms (λ m, unsafe_load (name m) (tag m)) s = (r, s') →
  on_save s' = on_save s
  ∧ on_delete s' = on_delete s
  ∧ (∃ loads, trace s' = trace s ++ loads
              ∧ forallb is_storage_load loads = true)
  ∧ (∀ k a, models s !! k = Some a → loaded a = true →
       ∃ a', models s' !! k = Some a' ∧ loaded a' = true)
  ∧ (∀ ys, r = Ok ys →
       ∀ m, m ∈ ms → ∃ a, models s' !! key m = Some a ∧ loaded a = true).
Proof.
  revert s r s'. induction ms as [| m ms IH]; intros s r s'.
  { intros [= <- <-]. repeat split; try done.
    - exists []. by rewrite app_nil_r.
    - eauto.
    - intros _ _ m Hm. by apply elem_of_nil in Hm. }
  cbn [all_loop]. unfold bind at 1. rewrite all_step_eq. unfold bind at 1.
  destruct (unsafe_load (name m) (tag m) _) as [r1 s1] eqn:Hturn.
  apply preload_turn in Hturn as (Hsv & Hdl & (l1 & Htr & Hl1) & Hkeep & Hthis).
  destruct r1 as [y | e].
  - unfold bind at 1.
    destruct (all_loop ms _ s1) as [r2 s2] eqn:Hrest.
    apply IH in Hrest as (Hsv2 & Hdl2 & (l2 & Htr2 & Hl2) & Hkeep2 & Hrest).
    assert (Hframe : on_save s2 = on_save s ∧ on_delete s2 = on_delete s
                     ∧ (∃ loads, trace s2 = trace s ++ loads
                                 ∧ forallb is_storage_load loads = true)
                     ∧ (∀ k a, models s !! k = Some a → loaded a = true →
                          ∃ a', models s2 !! k = Some a' ∧ loaded a' = true)).
    { repeat split; try congruence.
      - exists (l1 ++ l2). rewrite Htr2, Htr, forallb_app, Hl1, Hl2.
        by rewrite app_assoc.
      - intros k a Hk Hl. destruct (Hkeep k a Hk Hl) as (a1 & Hk1 & Hla1). eauto. }
    destruct Hframe as (? & ? & ? & ?).
    destruct r2 as [ys | e]; intros [= <- <-]; repeat split; try done.
    intros ys0 _ m0 [-> | Hin]%elem_of_cons.
    + destruct (Hthis y eq_refl) as (a & Hk & Hl). eauto.
    + by eapply Hrest.
  - intros [= <- <-]. repeat split; try done. exists l1. eauto.
Qed.

Lemma Cache_new_preload_eq (st : Storage S) :
  Cache_new st true
    = let '(r, s1) :=
        all_loop (fst (fst (storage_all (backend st))))
          (λ m, unsafe_load (name m) (tag m))
          (mkState (snd (storage_all (backend st)))
             (Signal_append (storage_on_save st) save_to_cache_method)
             (Signal_append (storage_on_delete st) delete_from_cache_method)
             ∅
             [OnSaveAppend save_to_cache_method;
              OnDeleteAppend delete_from_cache_method;
              Acquire reader_lock; StorageAll]) in
      match r with
      | Ok _ =>
          (match snd (fst (storage_all (backend st))) with
           | None => Ok tt
           | Some e => Err e
           end, log (Release reader_lock) s1)
      | Err e => (Err e, s1)
      end.
Proof.
  unfold Cache_new, fresh, on_save_append, on_delete_append, async_for_all.
  unfold bind, modify_state. cbn [negb]. rewrite call_eq. unfold log. cbn.
  destruct (storage_all (backend st)) as [[ms err] b]. cbn.
  destruct (all_loop ms _ _) as [[ys | e] s1]; [| done]. by destruct err.
Qed.

(** C8. [Cache.new] with preload registers [save_to_cache] on
    [on_save] and [delete_from_cache] on [on_delete], then starts the
    enumeration of the storage under the reader lock; what follows are
    calls of [storage.load] only.  When it returns, the enumeration ran
    to its end and every enumerated key is in the map with a loaded
    entry. *)
Theorem Cache_new_preloads (st : Storage S) :
  let r := fst (Cache_new st true) in
  let s' := snd (Cache_new st true) in
  (r = Ok tt →
     snd (fst (storage_all (backend st))) = None
     ∧ ∀ m, m ∈ fst (fst (storage_all (backend st))) →
         ∃ a, models s' !! key m = Some a ∧ loaded a = true)
  ∧ on_save s' = Signal_append (storage_on_save st) save_to_cache_method
  ∧ on_delete s' = Signal_append (storage_on_delete st) delete_from_cache_method
  ∧ ∃ loads,
      forallb is_storage_load loads = true
      ∧ (trace s' = [OnSaveAppend save_to_cache_method;
                     OnDeleteAppend delete_from_cache_method;
                     Acquire reader_lock; StorageAll] ++ loads
                    ++ [Release reader_lock]
         ∨ (r ≠ Ok tt
            ∧ trace s' = [OnSaveAppend save_to_cache_method;
                          OnDeleteAppend delete_from_cache_method;
                          Acquire reader_lock; StorageAll] ++ loads)).
Proof.
  cbn zeta. rewrite Cache_new_preload_eq.
  destruct (all_loop _ _ _) as [r1 s1] eqn:Hloop.
  apply preload_loop in Hloop as (Hsv & Hdl & (loads & Htr & Hl) & _ & Hall).
  cbn [on_save on_delete trace] in Hsv, Hdl, Htr.
  destruct r1 as [ys | e]; cbn [fst snd log on_save on_delete models trace].
  - split.
    + destruct (snd (fst (storage_all (backend st)))); [done |]. eauto.
    + repeat split; try done. exists loads. split; [done |]. left.
      rewrite Htr. by rewrite <- !app_assoc.
  - split; [done |]. repeat split; try done. exists loads. eauto.
Qed.

End Preload.

End CacheProperties.

(** ** The cache over the in-memory storage *)

(** The in-memory storage honours the contract of [load]. *)
Lemma Memory_load_returns_loaded name tag (b b' : Memory.Backend) m :
  storage_load name tag b = (Ok m, b') → loaded m = true.
Proof.
  cbn. unfold Memory.load.
  destruct (List.find _ _) as [m0 |]; [| done].
  unfold Model_load, Loader_load, Memory.runtime.
  destruct (loader m0); [| done]. by intros [= <- _].
Qed.

Lemma Cache_load_idempotent_witness :
  let s := Memory.empty_cache false in
  let m := Memory.a_v1_loaded in
  let s1 := snd (Cache_load "a" "v1" s) in
  Cache_load "a" "v1" s = (Ok m, s1)
  ∧ loaded m = true
  ∧ fst (Cache_load "a" "v1" s1) = Ok m
  ∧ trace (snd (Cache_load "a" "v1" s1))
      = [Acquire writer_lock; StorageLoad "a" "v1"; Release writer_lock;
         Acquire writer_lock; Release writer_lock].
Proof.
  intros s m s1.
  assert (Hfirst : Cache_load "a" "v1" s = (Ok m, s1)) by (vm_compute; reflexivity).
  assert (Hloaded : loaded m = true) by reflexivity.
  split; [exact Hfirst |]. split; [exact Hloaded |].
  destruct (Cache_load_idempotent "a" "v1" s s1 m Hfirst Hloaded)
    as [(Hr & _ & _ & Htr) _].
  split; [exact Hr |]. rewrite Htr. vm_compute. reflexivity.
Defined.

Lemma Cache_save_registers_witness :
  let s := Memory.empty_cache false in
  let m := Model_new 1 "0f" 0 "b" "v2" (mkPath "/" ["var"; "models"])
             (Some (mkLoader NoStrategy)) in
  let b := snd (storage_save "b" "v2" [] (storage s)) in
  storage_save "b" "v2" [] (storage s) = (Ok m, b)
  ∧ key m = ("b", "v2")
  ∧ fst (Cache_save "b" "v2" [] s) = Ok m
  ∧ models (snd (Cache_save "b" "v2" [] s)) !! ("b", "v2") = Some m.
Proof.
  intros s m b.
  assert (Hsave : storage_save "b" "v2" [] (storage s) = (Ok m, b)) by reflexivity.
  assert (Hkey : key m = ("b", "v2")) by reflexivity.
  split; [exact Hsave |]. split; [exact Hkey |].
  destruct (Cache_save_registers "b" "v2" [] s m b Hsave Hkey) as (Hr & Hm & _).
  split; [exact Hr | exact Hm].
Defined.

Lemma Cache_save_downgrades_witness :
  let s := snd (Cache_load "a" "v1" (Memory.empty_cache false)) in
  let old := Memory.a_v1_loaded in
  let m := Model_init 9 "a" "v1" 1 "/var/models/09" None in
  models s !! ("a", "v1") = Some old
  ∧ loaded old = true
  ∧ models (snd (save_to_cache m s)) !! ("a", "v1") = Some m
  ∧ loaded m = false.
Proof.
  intros s old m.
  assert (Hold : models s !! ("a", "v1") = Some old) by (vm_compute; reflexivity).
  assert (Hwas : loaded old = true) by reflexivity.
  split; [exact Hold |]. split; [exact Hwas |].
  exact (proj2 (Cache_save_downgrades "a" "v1" s old Hold Hwas)
           9%N 1%Z "/var/models/09" None).
Defined.

Lemma Cache_new_preloads_witness :
  let st := mkStorage (Memory.one_artifact false) [] [] in
  (∀ name tag (b b' : Memory.Backend) m,
     storage_load name tag b = (Ok m, b') → loaded m = true)
  ∧ fst (Cache_new st true) = Ok tt
  ∧ ∃ a, models (snd (Cache_new st true)) !! ("a", "v1") = Some a ∧ loaded a = true.
Proof.
  intros st.
  assert (Hreturns : fst (Cache_new st true) = Ok tt) by (vm_compute; reflexivity).
  split; [exact Memory_load_returns_loaded |].
  split; [exact Hreturns |].
  destruct (Cache_new_preloads Memory_load_returns_loaded st) as [Hall _].
  destruct (Hall Hreturns) as [_ Hloaded].
  apply (Hloaded Memory.a_v1). apply list_elem_of_here.
Defined.

(** ** Two callers of [Cache.load] *)

Section TaskProperties.
Context {S : Type} `{!AbstractStorage S}.
Implicit Types (s : State S) (c : Config S) (t o : Task) (name tag : string).

Lemma models_getitem_Some (k : string * string) s a :
  models s !! k = Some a → models_getitem k s = (Ok a, s).
Proof. intros Ha. unfold models_getitem, bind, get_state. by rewrite Ha. Qed.

Lemma resume_load_eq name tag s :
  resume_load name tag s
    = match storage_load name tag (storage s) with
      | (Ok m, b) =>
          (Ok m, mkState b (on_save s) (on_delete s)
                   (<[(name, tag) := m]> (models s)) (trace s))
      | (Err e, b) =>
          (Err e, mkState b (on_save s) (on_delete s) (models s) (trace s))
      end.
Proof.
  unfold resume_load, bind, on_backend.
  destruct (storage_load name tag (storage s)) as [[m | e] b]; [| done].
  cbn. unfold models_getitem, bind, get_state. cbn. by rewrite lookup_insert_eq.
Qed.

(** A task that is resumed three times in a row, from a free lock,
    does what [Cache.load] does. *)
Lemma run_alone name tag s :
  let c := run name tag [true; true; true] (start s) in
  task1 c = Returned (fst (Cache_load name tag s))
  ∧ cache c = snd (Cache_load name tag s)
  ∧ writer_held c = false.
Proof.
  cbn zeta. unfold Cache_load, async_with. cbn [run start step move task1 task2
    writer_held cache log models].
  destruct (missing_or_unloaded (models s) (name, tag)) eqn:Hmiss.
  - cbn [step move task1 task2 writer_held cache]. rewrite resume_load_eq.
    rewrite unsafe_load_miss by done. cbn [log storage on_save on_delete models trace].
    by destruct (storage_load name tag (storage s)) as [[a | e] b].
  - pose proof Hmiss as (a & Ha & Hl)%missing_or_unloaded_false.
    rewrite (models_getitem_Some _ _ a) by done.
    rewrite (unsafe_load_hit _ _ _ a) by done. done.
Qed.

Lemma load_invariant_sym name tag (s0 : State S) t o held s :
  load_invariant name tag s0 t o held s → load_invariant name tag s0 o t held s.
Proof.
  intros (Hheld & Hexcl & Hload & Hok & (ev & Htr & Hcount)).
  unfold load_invariant. rewrite (orb_comm (in_flight o)), (andb_comm (in_flight o)),
    (orb_comm (is_loading o)).
  split_and!; try done.
  - intros m [Hm | Hm]; apply Hok; eauto.
  - exists ev. split; [done |]. rewrite Hcount. f_equal. lia.
Qed.

Lemma load_invariant_start name tag s :
  missing_or_unloaded (models s) (name, tag) = true →
  load_invariant name tag s Waiting Waiting false s.
Proof.
  intros Hmiss. unfold load_invariant. split_and!; try done.
  - by intros m [? | ?].
  - exists []. rewrite app_nil_r, Hmiss. done.
Qed.

Lemma not_in_flight_not_loading o : in_flight o = false → is_loading o = false.
Proof. by destruct o. Qed.

Lemma move_moves_left name tag t held s t' held' s' :
  move name tag t held s = Some (t', held', s') → moves_left t' < moves_left t.
Proof.
  destruct t; cbn [move]; [| | | done].
  - destruct held; [done |]. intros [= <- _ _]. cbn. lia.
  - destruct (missing_or_unloaded _ _); [intros [= <- _ _]; cbn; lia |].
    destruct (models_getitem _ _). intros [= <- _ _]. cbn. lia.
  - destruct (resume_load _ _ _). intros [= <- _ _]. cbn. lia.
Qed.

Section Contract.
Variables (name tag : string) (s0 : State S).

(** The contract of [AbstractStorage.load], for the key at hand. *)
Hypothesis load_returns_loaded :
  ∀ (b b' : S) m, storage_load name tag b = (Ok m, b') → loaded m = true.

Lemma move_invariant t o held s t' held' s' :
  load_invariant name tag s0 t o held s →
  move name tag t held s = Some (t', held', s') →
  load_invariant name tag s0 t' o held' s'.
Proof.
  intros (Hheld & Hexcl & Hload & Hok & (ev & Htr & Hcount)) Hmove.
  destruct t; cbn [move] in Hmove; [| | | done].
  - (* the lock is free: the task enters the block *)
    destruct held; [done |]. injection Hmove as <- <- <-.
    cbn [in_flight orb andb is_loading has_failed Nat.b2n] in *.
    symmetry in Hheld. pose proof (not_in_flight_not_loading _ Hheld) as Hnl.
    unfold load_invariant. cbn [in_flight orb andb is_loading has_failed Nat.b2n
      log models trace].
    split; [done |]. split; [done |]. split; [by rewrite Hnl |]. split.
    + intros m [Hm | Hm]; [done |]. apply Hok. by right.
    + exists (ev ++ [Acquire writer_lock]).
      rewrite Htr, List.filter_app, Hcount, app_assoc. cbn. by rewrite app_nil_r.
  - (* inside the block: the test of [unsafe_load] *)
    cbn [in_flight orb andb is_loading has_failed Nat.b2n] in *.
    pose proof (not_in_flight_not_loading _ Hexcl) as Hnl.
    destruct (missing_or_unloaded (models s) (name, tag)) eqn:Hmiss.
    + injection Hmove as <- <- <-.
      unfold load_invariant. cbn [in_flight orb andb is_loading has_failed Nat.b2n
        log models trace].
      split; [done |]. split; [done |]. split; [done |]. split.
      * intros m [Hm | Hm]; [done |].
        destruct (Hok m (or_intror Hm)) as [Hentry Hl].
        apply missing_or_unloaded_true in Hmiss as [Hnone | (a & Ha & Hla)]; congruence.
      * exists (ev ++ [StorageLoad name tag]).
        rewrite Hnl in Hcount. cbn in Hcount.
        rewrite Htr, List.filter_app, Hcount, app_assoc, Hnl, Hmiss. cbn.
        by rewrite <- replicate_S_end.
    + pose proof Hmiss as (a & Ha & Hl)%missing_or_unloaded_false.
      rewrite (models_getitem_Some _ _ a) in Hmove by done.
      injection Hmove as <- <- <-.
      unfold load_invariant. cbn [in_flight orb andb is_loading has_failed Nat.b2n
        log models trace].
      split; [by rewrite Hexcl |]. split; [done |]. split; [by rewrite Hnl |]. split.
      * intros m [[= <-] | Hm]; [done |]. apply Hok. by right.
      * exists (ev ++ [Release writer_lock]).
        rewrite Htr, List.filter_app, Hcount, app_assoc, Hmiss. cbn.
        by rewrite app_nil_r.
  - (* the storage answers *)
    cbn [in_flight orb andb is_loading has_failed Nat.b2n] in *.
    pose proof (not_in_flight_not_loading _ Hexcl) as Hnl.
    specialize (Hload eq_refl). rewrite Hload, Hnl in Hcount. cbn in Hcount.
    assert (Hnotok : ∀ m, o ≠ Returned (Ok m)).
    { intros m Hm. destruct (Hok m (or_intror Hm)) as [Hentry Hl].
      apply missing_or_unloaded_true in Hload as [Hnone | (a & Ha & Hla)]; congruence. }
    rewrite resume_load_eq in Hmove.
    destruct (storage_load name tag (storage s)) as [[a | e] b] eqn:Hcall;
      injection Hmove as <- <- <-;
      unfold load_invariant; cbn [in_flight orb andb is_loading has_failed Nat.b2n
        log models trace].
    + apply load_returns_loaded in Hcall.
      assert (Hnow : missing_or_unloaded (<[(name, tag) := a]> (models s)) (name, tag)
                     = false).
      { apply missing_or_unloaded_false. exists a. by rewrite lookup_insert_eq. }
      split; [by rewrite Hexcl |]. split; [done |]. split; [by rewrite Hnl |]. split.
      * intros m [[= <-] | Hm]; [by rewrite lookup_insert_eq |]. by destruct (Hnotok m).
      * exists (ev ++ [Release writer_lock]).
        rewrite Htr, List.filter_app, Hcount, app_assoc, Hnl, Hnow. cbn.
        rewrite app_nil_r. split; [done |].
        by rewrite ?Nat.add_0_r, ?Nat.add_1_r.
    + split; [by rewrite Hexcl |]. split; [done |]. split; [by rewrite Hnl |]. split.
      * intros m [[=] | Hm]. by destruct (Hnotok m).
      * exists (ev ++ [Release writer_lock]).
        rewrite Htr, List.filter_app, Hcount, app_assoc, Hnl, Hload. cbn.
        rewrite app_nil_r. split; [done |].
        by rewrite ?Nat.add_0_r, ?Nat.add_1_r.
Qed.

Lemma step_invariant (first : bool) c c' :
  holds name tag s0 c → step name tag first c = Some c' → holds name tag s0 c'.
Proof.
  unfold holds, step. intros Hinv. destruct first.
  - destruct (move name tag (task1 c) _ _) as [[[t held] s] |] eqn:Hmove; [| done].
    intros [= <-]. cbn. by eapply move_invariant.
  - destruct (move name tag (task2 c) _ _) as [[[t held] s] |] eqn:Hmove; [| done].
    intros [= <-]. cbn. apply load_invariant_sym.
    eapply move_invariant; [| done]. by apply load_invariant_sym.
Qed.

Lemma run_invariant (schedule : list bool) c :
  holds name tag s0 c → holds name tag s0 (run name tag schedule c).
Proof.
  revert c. induction schedule as [| first rest IH]; intros c Hinv; [done |].
  cbn [run]. apply IH.
  destruct (step name tag first c) as [c' |] eqn:Hstep; [| done].
  by eapply step_invariant.
Qed.

(** While a call has not returned, some task can move. *)
Lemma progress c :
  holds name tag s0 c → finished c = false → ∃ first c', step name tag first c = Some c'.
Proof.
  unfold holds, finished, step. intros (Hheld & Hexcl & _) Hnot.
  assert (Hcan : ∀ t, has_returned t = false →
            (in_flight t = true ∨ writer_held c = false) →
            ∃ r, move name tag t (writer_held c) (cache c) = Some r).
  { intros t Hr Hfree. destruct t; cbn [move]; [| | | done].
    - destruct Hfree as [? | ->]; [done | eauto].
    - destruct (missing_or_unloaded _ _); [eauto |].
      destruct (models_getitem _ _). eauto.
    - destruct (resume_load _ _ _). eauto. }
  destruct (in_flight (task1 c)) eqn:H1.
  - destruct (Hcan (task1 c)) as [[[t held] s] Hm]; [by destruct (task1 c) | by left |].
    exists true. rewrite Hm. eauto.
  - destruct (in_flight (task2 c)) eqn:H2.
    + destruct (Hcan (task2 c)) as [[[t held] s] Hm]; [by destruct (task2 c) | by left |].
      exists false. rewrite Hm. eauto.
    + cbn in Hheld. apply andb_false_iff in Hnot as [Hr | Hr].
      * destruct (Hcan (task1 c) Hr (or_intror Hheld)) as [[[t held] s] Hm].
        exists true. rewrite Hm. eauto.
      * destruct (Hcan (task2 c) Hr (or_intror Hheld)) as [[[t held] s] Hm].
        exists false. rewrite Hm. eauto.
Qed.

Lemma step_moves_left (first : bool) c c' :
  step name tag first c = Some c' →
  moves_left (task1 c') + moves_left (task2 c')
    < moves_left (task1 c) + moves_left (task2 c).
Proof.
  unfold step. destruct first.
  - destruct (move name tag (task1 c) _ _) as [[[t held] s] |] eqn:Hmove; [| done].
    intros [= <-]. cbn. apply move_moves_left in Hmove. lia.
  - destruct (move name tag (task2 c) _ _) as [[[t held] s] |] eqn:Hmove; [| done].
    intros [= <-]. cbn. apply move_moves_left in Hmove. lia.
Qed.

(** From wherever a run has come, the two calls can be brought to
    return, in as many moves as they have left. *)
Lemma completes (n : nat) c :
  holds name tag s0 c → moves_left (task1 c) + moves_left (task2 c) ≤ n →
  ∃ rest, length rest ≤ n ∧ finished (run name tag rest c) = true.
Proof.
  revert c. induction n as [| n IH]; intros c Hinv Hn.
  - exists []. split; [done |]. unfold finished. cbn.
    destruct (task1 c), (task2 c); cbn in *; done || lia.
  - destruct (finished c) eqn:Hfin.
    { exists []. split; [cbn; lia | done]. }
    destruct (progress c Hinv Hfin) as (first & c' & Hstep).
    pose proof (step_moves_left _ _ _ Hstep) as Hlt.
    destruct (IH c') as (rest & Hlen & Hdone); [by eapply step_invariant | lia |].
    exists (first :: rest). split; [cbn; lia |]. cbn [run]. by rewrite Hstep.
Qed.

Lemma moves_left_le (t : Task) : moves_left t ≤ 3.
Proof. destruct t; cbn; lia. Qed.

(** C9. Two calls [Cache.load(name, tag)] made together on a cache
    that has no loaded entry for the key, under any schedule of the
    event loop, as far as the schedule has got: the two calls are never
    both inside the block of the writer lock, so at most one of them is
    suspended in [storage.load]; when both have returned an artifact, it
    is the same loaded artifact for both and [storage.load] was called
    exactly once; and as long as one has not returned, a task can move,
    so that six moves at most bring both to return. *)
Theorem concurrent_load_once (schedule : list bool)
    (Hmiss : models s0 !! (name, tag) = None
             ∨ ∃ a, models s0 !! (name, tag) = Some a ∧ loaded a = false) :
  let c := run name tag schedule (start s0) in
  in_flight (task1 c) && in_flight (task2 c) = false
  ∧ is_loading (task1 c) && is_loading (task2 c) = false
  ∧ (∀ m1 m2, task1 c = Returned (Ok m1) → task2 c = Returned (Ok m2) →
       m1 = m2 ∧ loaded m1 = true
       ∧ ∃ events, trace (cache c) = trace s0 ++ events
           ∧ List.filter is_storage_load events = [StorageLoad name tag])
  ∧ (finished c = false → ∃ first c', step name tag first c = Some c')
  ∧ (∃ rest, length rest ≤ 6 ∧ finished (run name tag rest c) = true).
Proof.
  intros c.
  assert (Hinv : holds name tag s0 c).
  { apply run_invariant, load_invariant_start. by apply missing_or_unloaded_true. }
  split; [apply Hinv |]. split; [| split; [| split]].
  - destruct Hinv as (_ & Hexcl & _). by destruct (task1 c), (task2 c).
  - intros m1 m2 H1 H2.
    destruct Hinv as (_ & _ & _ & Hok & (ev & Htr & Hcount)).
    destruct (Hok m1 (or_introl H1)) as [He1 Hl1].
    destruct (Hok m2 (or_intror H2)) as [He2 _].
    split; [congruence |]. split; [done |]. exists ev. split; [done |].
    assert (Hnow : missing_or_unloaded (models (cache c)) (name, tag) = false).
    { apply missing_or_unloaded_false. eauto. }
    rewrite Hcount, H1, H2, Hnow. done.
  - by apply progress.
  - apply completes; [done |].
    pose proof (moves_left_le (task1 c)). pose proof (moves_left_le (task2 c)). lia.
Qed.

End Contract.

End TaskProperties.

(** The two calls resumed in turn, on the in-memory storage. *)
Lemma concurrent_load_once_witness :
  let s := Memory.empty_cache false in
  let c := run "a" "v1" [true; false; true; false; true; false; false; false] (start s) in
  (∀ (b b' : Memory.Backend) m, storage_load "a" "v1" b = (Ok m, b') → loaded m = true)
  ∧ models s !! ("a", "v1") = None
  ∧ task1 c = Returned (Ok Memory.a_v1_loaded)
  ∧ task2 c = Returned (Ok Memory.a_v1_loaded)
  ∧ ∃ events, trace (cache c) = trace s ++ events
      ∧ List.filter is_storage_load events = [StorageLoad "a" "v1"].
Proof.
  intros s c.
  assert (Hcontract : ∀ (b b' : Memory.Backend) m,
            storage_load "a" "v1" b = (Ok m, b') → loaded m = true)
    by apply Memory_load_returns_loaded.
  assert (Hnone : models s !! ("a", "v1") = None) by reflexivity.
  assert (H1 : task1 c = Returned (Ok Memory.a_v1_loaded)) by (vm_compute; reflexivity).
  assert (H2 : task2 c = Returned (Ok Memory.a_v1_loaded)) by (vm_compute; reflexivity).
  split; [exact Hcontract |]. split; [exact Hnone |].
  split; [exact H1 |]. split; [exact H2 |].
  destruct (concurrent_load_once "a" "v1" s Hcontract
              [true; false; true; false; true; false; false; false] (or_introl Hnone))
    as (_ & _ & Hsame & _).
  exact (proj2 (proj2 (Hsame _ _ H1 H2))).
Defined.

(** ** The scenarios of the spec, run on the in-memory storage *)

(** ["a"]/["v1"] is loaded, then listed: the entry is still the loaded
    artifact although the storage lists the artifact unloaded. *)
Lemma Cache_all_keeps_entries_witness :
  let s := snd (Cache_load "a" "v1" (Memory.empty_cache false)) in
  models s !! ("a", "v1") = Some Memory.a_v1_loaded
  ∧ fst (Cache_all s) = Ok [Memory.a_v1]
  ∧ models (snd (Cache_all s)) !! ("a", "v1") = Some Memory.a_v1_loaded.
Proof.
  intros s.
  assert (Hentry : models s !! ("a", "v1") = Some Memory.a_v1_loaded)
    by (vm_compute; reflexivity).
  split; [exact Hentry |]. split; [vm_compute; reflexivity |].
  exact (proj1 (Cache_all_keeps_entries s) _ _ Hentry).
Defined.

(** ["a"]/["v1"] is loaded, then deleted on a storage whose [delete]
    fails: the error comes back, the entry is gone, the storage still
    has the artifact. *)
Lemma Cache_delete_removes_first_witness :
  let s := snd (Cache_load "a" "v1" (Memory.empty_cache true)) in
  let s' := snd (Cache_delete "a" "v1" s) in
  models s !! ("a", "v1") = Some Memory.a_v1_loaded
  ∧ fst (Cache_delete "a" "v1" s) = Err (StorageError "permission denied")
  ∧ models s' !! ("a", "v1") = None
  ∧ Memory.stored (storage s') = [Memory.a_v1].
Proof.
  intros s s'.
  assert (Hfails : fst (storage_delete "a" "v1" (storage s))
                   = Err (StorageError "permission denied"))
    by (vm_compute; reflexivity).
  split; [vm_compute; reflexivity |].
  destruct (Cache_delete_removes_first "a" "v1" s) as (_ & _ & _ & Hraise & _).
  destruct (Hraise _ Hfails) as [Hr Hgone].
  split; [exact Hr |]. split; [exact Hgone |]. vm_compute. reflexivity.
Defined.

(** * Further properties of the cache *)

Section CacheErrorsAndKeys.
Context {S : Type} `{!AbstractStorage S}.
Implicit Types (s : State S) (m a : Model) (name tag : string).

Lemma Cache_load_fetch name tag s :
  missing_or_unloaded (models s) (name, tag) = true →
  Cache_load name tag s
    = match storage_load name tag (storage s) with
      | (Ok m, b) =>
          (Ok m, mkState b (on_save s) (on_delete s)
                   (<[(name, tag) := m]> (models s))
                   (trace s ++ [Acquire writer_lock; StorageLoad name tag;
                                Release writer_lock]))
      | (Err e, b) =>
          (Err e, mkState b (on_save s) (on_delete s) (models s)
                    (trace s ++ [Acquire writer_lock; StorageLoad name tag;
                                 Release writer_lock]))
      end.
Proof.
  intros Hmiss. unfold Cache_load, async_with. rewrite unsafe_load_miss by done.
  cbn [log storage on_save on_delete models trace].
  destruct (storage_load name tag (storage s)) as [[m | e] b];
    unfold log; cbn; by rewrite <- !app_assoc.
Qed.

(** X1. A [Cache.load] whose [storage.load] raises hands the exception
    on, leaves the map as it was and has given the writer lock back; the
    failure is not remembered: the next [Cache.load] of the key calls
    the storage again. *)
Theorem Cache_load_failure_not_cached name tag s e (b : S)
    (Hmiss : models s !! (name, tag) = None
             ∨ ∃ a, models s !! (name, tag) = Some a ∧ loaded a = false)
    (Hfail : storage_load name tag (storage s) = (Err e, b)) :
  let s' := snd (Cache_load name tag s) in
  fst (Cache_load name tag s) = Err e
  ∧ models s' = models s
  ∧ storage s' = b
  ∧ trace s' = trace s ++ [Acquire writer_lock; StorageLoad name tag;
                           Release writer_lock]
  ∧ trace (snd (Cache_load name tag s'))
      = trace s' ++ [Acquire writer_lock; StorageLoad name tag;
                     Release writer_lock].
Proof.
  apply missing_or_unloaded_true in Hmiss.
  cbn zeta. rewrite (Cache_load_fetch name tag s) by done. rewrite Hfail.
  cbn [fst snd models storage trace].
  split_and!; try done. by apply Cache_load_miss.
Qed.

(** X2. A [Cache.save] whose [storage.save] raises hands the exception
    on without taking the lock and without touching the map. *)
Theorem Cache_save_failure name tag (stream : list Byte.byte) s e (b : S)
    (Hfail : storage_save name tag stream (storage s) = (Err e, b)) :
  let s' := snd (Cache_save name tag stream s) in
  fst (Cache_save name tag stream s) = Err e
  ∧ models s' = models s
  ∧ storage s' = b
  ∧ trace s' = trace s ++ [StorageSave name tag stream].
Proof. cbn zeta. by rewrite Cache_save_eq, Hfail. Qed.

(** X3. [Cache.load] files what the storage returns under the key it
    was asked for, whatever name and tag the artifact carries, and
    touches no other key. *)
Theorem Cache_load_files_under_requested_key name tag s m (b : S)
    (Hmiss : models s !! (name, tag) = None
             ∨ ∃ a, models s !! (name, tag) = Some a ∧ loaded a = false)
    (Hload : storage_load name tag (storage s) = (Ok m, b)) :
  fst (Cache_load name tag s) = Ok m
  ∧ models (snd (Cache_load name tag s)) = <[(name, tag) := m]> (models s).
Proof.
  apply missing_or_unloaded_true in Hmiss.
  by rewrite Cache_load_fetch, Hload.
Qed.

(** X4. [Cache.save] files the artifact under the name and tag the
    artifact carries, not under its own arguments: when the two differ,
    the entry of the key that was passed is left as it was. *)
Theorem Cache_save_files_under_own_key name tag (stream : list Byte.byte) s m (b : S)
    (Hsave : storage_save name tag stream (storage s) = (Ok m, b)) :
  let s' := snd (Cache_save name tag stream s) in
  models s' = <[key m := m]> (models s)
  ∧ (key m ≠ (name, tag) → models s' !! (name, tag) = models s !! (name, tag)).
Proof.
  cbn zeta. rewrite Cache_save_eq, Hsave. cbn [snd models].
  split; [done |]. intros Hne. by rewrite lookup_insert_ne.
Qed.

(** X5. [Cache.delete] of a key the map does not hold raises no
    [KeyError]: the map is unchanged, [storage.delete] is still called
    and decides the outcome.  On the map, deleting twice is deleting
    once. *)
Theorem Cache_delete_absent_key name tag s :
  (models s !! (name, tag) = None →
     models (snd (Cache_delete name tag s)) = models s
     ∧ fst (Cache_delete name tag s) = fst (storage_delete name tag (storage s))
     ∧ trace (snd (Cache_delete name tag s))
         = trace s ++ [Acquire writer_lock; Release writer_lock;
                       StorageDelete name tag])
  ∧ models (snd (Cache_delete name tag (snd (Cache_delete name tag s))))
      = models (snd (Cache_delete name tag s)).
Proof.
  rewrite !Cache_delete_eq. cbn [fst snd models]. split.
  - intros Habsent. by rewrite delete_id.
  - apply delete_id, lookup_delete_eq.
Qed.

(** X6. [Cache.save] does not load: the artifact it registers has no
    handle, so the first [Cache.load] of the key after it calls
    [storage.load], returns what that call returns and replaces the
    registered entry by it. *)
Theorem Cache_save_then_load name tag (stream : list Byte.byte) s m (b : S)
    (Hsave : storage_save name tag stream (storage s) = (Ok m, b))
    (Hkey : key m = (name, tag))
    (Hnew : model m = None) :
  let s1 := snd (Cache_save name tag stream s) in
  trace (snd (Cache_load name tag s1))
    = trace s1 ++ [Acquire writer_lock; StorageLoad name tag; Release writer_lock]
  ∧ ∀ m' (b' : S), storage_load name tag b = (Ok m', b') →
      fst (Cache_load name tag s1) = Ok m'
      ∧ models (snd (Cache_load name tag s1)) !! (name, tag) = Some m'.
Proof.
  cbn zeta. rewrite Cache_save_eq, Hsave. cbn [snd]. set (s1 := mkState _ _ _ _ _).
  assert (Hmiss : missing_or_unloaded (models s1) (name, tag) = true).
  { apply missing_or_unloaded_true. right. exists m. subst s1. cbn.
    rewrite Hkey, lookup_insert_eq. unfold loaded. by rewrite Hnew. }
  split; [by apply Cache_load_miss |].
  intros m' b' Hload. rewrite Cache_load_fetch by done.
  subst s1. cbn [storage]. rewrite Hload. cbn [fst snd models].
  split; [done |]. apply lookup_insert_eq.
Qed.

(** X7. When the storage enumerates several artifacts with one key and
    the map has none for it, the first of them is the one [Cache.all]
    keeps; a key that is neither in the map nor enumerated stays absent. *)
Theorem Cache_all_first_enumerated_wins s (k : string * string)
    (Habsent : models s !! k = None) :
  models (snd (Cache_all s)) !! k
    = List.find (λ a, bool_decide (key a = k)) (fst (fst (storage_all (storage s)))).
Proof.
  destruct (Cache_all_eq s) as (s' & Hrun & ->). cbn [snd log models].
  destruct (all_loop_ret (fst (fst (storage_all (storage s))))
              (mkState (snd (storage_all (storage s))) (on_save s) (on_delete s)
                       (models s) (trace s ++ [Acquire reader_lock; StorageAll])))
    as (s2 & Hrun2 & _ & _ & _ & _ & _ & Hnew).
  rewrite Hrun in Hrun2. injection Hrun2 as <-. by apply Hnew.
Qed.

End CacheErrorsAndKeys.

(** ** These properties on concrete storages *)

Lemma Cache_load_failure_not_cached_witness :
  let s := Failing.empty_cache in
  models s !! ("a", "v1") = None
  ∧ storage_load "a" "v1" (storage s) = (Err Failing.refused, tt)
  ∧ fst (Cache_load "a" "v1" s) = Err Failing.refused
  ∧ models (snd (Cache_load "a" "v1" s)) = models s.
Proof.
  intros s.
  assert (Hnone : models s !! ("a", "v1") = None) by reflexivity.
  assert (Hfail : storage_load "a" "v1" (storage s) = (Err Failing.refused, tt))
    by reflexivity.
  split; [exact Hnone |]. split; [exact Hfail |].
  destruct (Cache_load_failure_not_cached "a" "v1" s _ _ (or_introl Hnone) Hfail)
    as (Hr & Hm & _).
  split; [exact Hr | exact Hm].
Defined.

Lemma Cache_save_failure_witness :
  let s := Failing.empty_cache in
  storage_save "a" "v1" [] (storage s) = (Err Failing.refused, tt)
  ∧ fst (Cache_save "a" "v1" [] s) = Err Failing.refused
  ∧ models (snd (Cache_save "a" "v1" [] s)) = models s.
Proof.
  intros s.
  assert (Hfail : storage_save "a" "v1" [] (storage s) = (Err Failing.refused, tt))
    by reflexivity.
  split; [exact Hfail |].
  destruct (Cache_save_failure "a" "v1" [] s _ _ Hfail) as (Hr & Hm & _).
  split; [exact Hr | exact Hm].
Defined.

(** ["a"] is asked for under ["latest"]: the artifact tagged ["v1"] is
    filed under ["latest"], and nothing is filed under ["v1"]. *)
Lemma Cache_load_files_under_requested_key_witness :
  let s := Latest.empty_cache in
  let m := Memory.a_v1_loaded in
  models s !! ("a", "latest") = None
  ∧ storage_load "a" "latest" (storage s) = (Ok m, storage s)
  ∧ key m = ("a", "v1")
  ∧ models (snd (Cache_load "a" "latest" s)) !! ("a", "latest") = Some m
  ∧ models (snd (Cache_load "a" "latest" s)) !! ("a", "v1") = None.
Proof.
  intros s m.
  assert (Hnone : models s !! ("a", "latest") = None) by reflexivity.
  assert (Hload : storage_load "a" "latest" (storage s) = (Ok m, storage s))
    by (vm_compute; reflexivity).
  split; [exact Hnone |]. split; [exact Hload |]. split; [reflexivity |].
  destruct (Cache_load_files_under_requested_key "a" "latest" s m _
              (or_introl Hnone) Hload) as [_ Hm].
  rewrite Hm. split; [apply lookup_insert_eq |].
  rewrite lookup_insert_ne by discriminate. reflexivity.
Defined.

Lemma Cache_save_files_under_own_key_witness :
  let s := Memory.empty_cache false in
  let m := Model_new 1 "0f" 0 "b" "v2" (mkPath "/" ["var"; "models"])
             (Some (mkLoader NoStrategy)) in
  let b := snd (storage_save "b" "v2" [] (storage s)) in
  storage_save "b" "v2" [] (storage s) = (Ok m, b)
  ∧ models (snd (Cache_save "b" "v2" [] s)) = <[key m := m]> (models s).
Proof.
  intros s m b.
  assert (Hsave : storage_save "b" "v2" [] (storage s) = (Ok m, b)) by reflexivity.
  split; [exact Hsave |].
  exact (proj1 (Cache_save_files_under_own_key "b" "v2" [] s m b Hsave)).
Defined.

Lemma Cache_save_then_load_witness :
  let s := Memory.empty_cache false in
  let m := Model_new 1 "0f" 0 "b" "v2" (mkPath "/" ["var"; "models"])
             (Some (mkLoader NoStrategy)) in
  let b := snd (storage_save "b" "v2" [] (storage s)) in
  let s1 := snd (Cache_save "b" "v2" [] s) in
  storage_save "b" "v2" [] (storage s) = (Ok m, b)
  ∧ key m = ("b", "v2")
  ∧ model m = None
  ∧ trace (snd (Cache_load "b" "v2" s1))
      = trace s1 ++ [Acquire writer_lock; StorageLoad "b" "v2"; Release writer_lock].
Proof.
  intros s m b s1.
  assert (Hsave : storage_save "b" "v2" [] (storage s) = (Ok m, b)) by reflexivity.
  assert (Hkey : key m = ("b", "v2")) by reflexivity.
  assert (Hnew : model m = None) by reflexivity.
  split; [exact Hsave |]. split; [exact Hkey |]. split; [exact Hnew |].
  exact (proj1 (Cache_save_then_load "b" "v2" [] s m b Hsave Hkey Hnew)).
Defined.

(** Two artifacts stored under one key: the one enumerated first is
    kept. *)
Lemma Cache_all_first_enumerated_wins_witness :
  let twin := Model_new 8 "08" 5 "a" "v1" (mkPath "/" ["var"; "models"])
             (Some (mkLoader NoStrategy)) in
  let s := fresh (mkStorage (Memory.mkBackend (mkPath "/" ["var"; "models"]) [Memory.a_v1; twin] false)
                    [] []) in
  models s !! ("a", "v1") = None
  ∧ fst (Cache_all s) = Ok [Memory.a_v1; twin]
  ∧ models (snd (Cache_all s)) !! ("a", "v1") = Some Memory.a_v1.
Proof.
  intros twin s.
  assert (Hnone : models s !! ("a", "v1") = None) by reflexivity.
  split; [exact Hnone |]. split; [vm_compute; reflexivity |].
  rewrite (Cache_all_first_enumerated_wins s ("a", "v1") Hnone).
  vm_compute. reflexivity.
Defined.

(** * The lock and the signals over whole histories *)

Lemma lock_scan_app (held : option Lock) (e1 e2 : list Event) :
  lock_scan held (e1 ++ e2)
    = match lock_scan held e1 with
      | Some held' => lock_scan held' e2
      | None => None
      end.
Proof.
  revert held. induction e1 as [| e e1 IH]; intros held; [done |].
  destruct e as [l | l | | | | | |]; cbn [app lock_scan]; try apply IH.
  - destruct held; [done | apply IH].
  - destruct held as [l' |]; [| done]. destruct (Lock_eqb l l'); [apply IH | done].
Qed.

Lemma lock_scan_loads (held : option Lock) (loads : list Event) :
  forallb is_storage_load loads = true → lock_scan held loads = Some held.
Proof.
  induction loads as [| e loads IH]; [done |].
  cbn [forallb]. intros [He Hl]%andb_true_iff. destruct e; try done. by apply IH.
Qed.

Section HistoryProperties.
Context {S : Type} `{!AbstractStorage S}.
Implicit Types (s : State S) (m a : Model) (name tag : string).

Lemma Cache_all_frame s :
  on_save (snd (Cache_all s)) = on_save s
  ∧ on_delete (snd (Cache_all s)) = on_delete s
  ∧ trace (snd (Cache_all s))
      = trace s ++ [Acquire reader_lock; StorageAll; Release reader_lock].
Proof.
  destruct (Cache_all_eq s) as (s' & Hrun & ->). cbn [snd log on_save on_delete trace].
  destruct (all_loop_ret (fst (fst (storage_all (storage s))))
              (mkState (snd (storage_all (storage s))) (on_save s) (on_delete s)
                       (models s) (trace s ++ [Acquire reader_lock; StorageAll])))
    as (s2 & Hrun2 & _ & Hsv & Hdl & Htr & _).
  rewrite Hrun in Hrun2. injection Hrun2 as <-.
  rewrite Hsv, Hdl, Htr. cbn. by rewrite <- app_assoc.
Qed.

Lemma Cache_load_frame name tag s :
  on_save (snd (Cache_load name tag s)) = on_save s
  ∧ on_delete (snd (Cache_load name tag s)) = on_delete s
  ∧ (trace (snd (Cache_load name tag s))
       = trace s ++ [Acquire writer_lock; Release writer_lock]
     ∨ trace (snd (Cache_load name tag s))
       = trace s ++ [Acquire writer_lock; StorageLoad name tag; Release writer_lock]).
Proof.
  destruct (missing_or_unloaded (models s) (name, tag)) eqn:Hmiss.
  - rewrite Cache_load_fetch by done.
    destruct (storage_load name tag (storage s)) as [[m | e] b]; cbn; eauto.
  - apply missing_or_unloaded_false in Hmiss as (a & Ha & Hl).
    rewrite (Cache_load_hit _ _ _ a) by done. cbn. eauto.
Qed.

(** What one call adds to the trace leaves the lock free, and the call
    leaves the signals alone. *)
Lemma serve_frame (r : Request) s :
  on_save (serve r s) = on_save s
  ∧ on_delete (serve r s) = on_delete s
  ∧ ∃ events, trace (serve r s) = trace s ++ events
      ∧ lock_scan None events = Some None.
Proof.
  destruct r as [| name tag stream | name tag | name tag | m | name tag]; cbn [serve].
  - destruct (Cache_all_frame s) as (-> & -> & ->). eauto.
  - rewrite Cache_save_eq.
    destruct (storage_save name tag stream (storage s)) as [[m | e] b]; cbn; eauto.
  - rewrite Cache_delete_eq. cbn. eauto.
  - destruct (Cache_load_frame name tag s) as (-> & -> & [-> | ->]); eauto.
  - rewrite save_to_cache_eq. cbn. eauto.
  - rewrite delete_from_cache_eq. cbn. eauto.
Qed.

(** X8. After any sequence of calls of [all], [save], [delete], [load],
    [save_to_cache] and [delete_from_cache], each run to its end and
    whether it returned or raised, the lock is free and was never asked
    for while held, and the two signals of the storage hold the
    callbacks they held before: only [Cache.new] registers. *)
Theorem history_keeps_lock_free (rs : list Request) s :
  on_save (history rs s) = on_save s
  ∧ on_delete (history rs s) = on_delete s
  ∧ ∃ events, trace (history rs s) = trace s ++ events
      ∧ lock_scan None events = Some None.
Proof.
  revert s. induction rs as [| r rs IH]; intros s.
  { cbn. split_and!; try done. exists []. by rewrite app_nil_r. }
  cbn [history fold_left].
  destruct (serve_frame r s) as (Hsv & Hdl & (e1 & Htr1 & Hl1)).
  destruct (IH (serve r s)) as (Hsv2 & Hdl2 & (e2 & Htr2 & Hl2)).
  unfold history in *. rewrite Hsv2, Hdl2, Htr2, Htr1.
  split_and!; try done. exists (e1 ++ e2).
  by rewrite app_assoc, lock_scan_app, Hl1.
Qed.

(** The loop of the preload, for any storage: what it adds to the trace
    are calls of [storage.load] for enumerated artifacts. *)
Lemma preload_loop_loads (ms : list Model) s (r : Result (list Model)) s' :
  all_loop ms (λ m, unsafe_load (name m) (tag m)) s = (r, s') →
  ∃ loads, trace s' = trace s ++ loads
    ∧ (∀ e, e ∈ loads → ∃ m, m ∈ ms ∧ e = StorageLoad (name m) (tag m)).
Proof.
  revert s r s'. induction ms as [| m ms IH]; intros s r s'.
  { intros [= <- <-]. exists []. rewrite app_nil_r. split; [done |].
    intros e He. by apply elem_of_nil in He. }
  cbn [all_loop]. unfold bind at 1. rewrite all_step_eq. unfold bind at 1.
  set (s1 := match models s !! key m with
             | None => set_models <[key m := m]> s
             | Some _ => s
             end).
  assert (Htr1 : trace s1 = trace s) by (subst s1; by destruct (models s !! key m)).
  assert (Hturn : ∃ l1, (∀ r2 s2, unsafe_load (name m) (tag m) s1 = (r2, s2) →
                          trace s2 = trace s ++ l1)
                        ∧ (l1 = [] ∨ l1 = [StorageLoad (name m) (tag m)])).
  { destruct (missing_or_unloaded (models s1) (name m, tag m)) eqn:Hmiss.
    - exists [StorageLoad (name m) (tag m)]. split; [| by right].
      intros r2 s2. rewrite unsafe_load_miss by done.
      destruct (storage_load _ _ _) as [[a | e] b]; intros [= <- <-]; cbn;
        by rewrite Htr1.
    - apply missing_or_unloaded_false in Hmiss as (a & Ha & Hl).
      exists []. split; [| by left]. intros r2 s2.
      rewrite (unsafe_load_hit _ _ _ a) by done. intros [= <- <-].
      by rewrite app_nil_r. }
  destruct Hturn as (l1 & Htr & Hl1).
  assert (Hin1 : ∀ e, e ∈ l1 → ∃ m0, m0 ∈ m :: ms ∧ e = StorageLoad (name m0) (tag m0)).
  { intros e He. exists m. split; [apply list_elem_of_here |].
    destruct Hl1 as [-> | ->]; [by apply elem_of_nil in He |].
    by apply list_elem_of_singleton in He. }
  destruct (unsafe_load (name m) (tag m) s1) as [[y | e] s2] eqn:Hrun.
  - specialize (Htr _ _ eq_refl). unfold bind at 1.
    destruct (all_loop ms _ s2) as [r3 s3] eqn:Hrest.
    apply IH in Hrest as (l2 & Htr3 & Hin2).
    assert (Hboth : ∃ loads, trace s3 = trace s ++ loads
              ∧ ∀ e, e ∈ loads →
                  ∃ m0, m0 ∈ m :: ms ∧ e = StorageLoad (name m0) (tag m0)).
    { exists (l1 ++ l2). rewrite Htr3, Htr, app_assoc. split; [done |].
      intros e [He | He]%elem_of_app; [by apply Hin1 |].
      destruct (Hin2 e He) as (m0 & Hm0 & ->). exists m0.
      split; [by apply list_elem_of_further | done]. }
    by destruct r3; intros [= <- <-].
  - intros [= <- <-]. exists l1. split; [exact (Htr _ _ eq_refl) | done].
Qed.

(** X9. [Cache.new] never asks for the lock while it holds it.  Without
    preload it neither takes the lock nor calls the storage.  With
    preload it takes the reader lock once, calls [storage.load] only for
    enumerated artifacts and through [unsafe_load], which takes no lock;
    when it returns the lock is free. *)
Theorem Cache_new_lock_discipline (st : Storage S) :
  trace (snd (Cache_new st false))
    = [OnSaveAppend save_to_cache_method; OnDeleteAppend delete_from_cache_method]
  ∧ (∃ loads,
       (∀ e, e ∈ loads →
          ∃ m, m ∈ fst (fst (storage_all (backend st)))
               ∧ e = StorageLoad (name m) (tag m))
       ∧ (trace (snd (Cache_new st true))
            = [OnSaveAppend save_to_cache_method;
               OnDeleteAppend delete_from_cache_method;
               Acquire reader_lock; StorageAll] ++ loads ++ [Release reader_lock]
          ∨ (fst (Cache_new st true) ≠ Ok tt
             ∧ trace (snd (Cache_new st true))
                 = [OnSaveAppend save_to_cache_method;
                    OnDeleteAppend delete_from_cache_method;
                    Acquire reader_lock; StorageAll] ++ loads)))
  ∧ lock_scan None (trace (snd (Cache_new st true))) ≠ None
  ∧ (fst (Cache_new st true) = Ok tt →
       lock_scan None (trace (snd (Cache_new st true))) = Some None).
Proof.
  split; [done |].
  rewrite Cache_new_preload_eq.
  destruct (all_loop _ _ _) as [r1 s1] eqn:Hloop.
  apply preload_loop_loads in Hloop as (loads & Htr & Hin).
  cbn [trace] in Htr.
  assert (Hscan : ∀ held, lock_scan held loads = Some held).
  { intros held. apply lock_scan_loads, forallb_forall. intros e He.
    apply list_elem_of_In, Hin in He as (m & _ & ->). done. }
  destruct r1 as [ys | e]; cbn [fst snd log trace].
  - rewrite Htr, <- !app_assoc. cbn [app].
    assert (Hfree : lock_scan None
              (OnSaveAppend save_to_cache_method
                 :: OnDeleteAppend delete_from_cache_method
                 :: Acquire reader_lock :: StorageAll
                 :: loads ++ [Release reader_lock]) = Some None).
    { cbn [lock_scan]. by rewrite lock_scan_app, Hscan. }
    split; [exists loads; split; [done | by left] |].
    rewrite Hfree. done.
  - rewrite Htr. cbn [app].
    split; [exists loads; split; [done | right; done] |].
    cbn [lock_scan]. rewrite Hscan. done.
Qed.

End HistoryProperties.

Section PreloadOnce.
Context {S : Type} `{!AbstractStorage S}.
Implicit Types (s : State S) (m a : Model) (name tag : string).

(** The contract of [AbstractStorage.load]: what it returns is a
    loaded model. *)
Hypothesis load_returns_loaded :
  ∀ name tag (b b' : S) m, storage_load name tag b = (Ok m, b') → loaded m = true.

Lemma filter_load_of_singleton (k : string * string) name tag :
  List.filter (is_load_of k) [StorageLoad name tag]
    = if bool_decide ((name, tag) = k) then [StorageLoad name tag] else [].
Proof. cbn. by case_bool_decide. Qed.

Lemma preload_loop_once (ms : list Model) s (r : Result (list Model)) s' :
  all_loop ms (λ m, unsafe_load (name m) (tag m)) s = (r, s') →
  ∃ loads, trace s' = trace s ++ loads
    ∧ (∀ k, length (List.filter (is_load_of k) loads) ≤ 1)
    ∧ (∀ k a, models s !! k = Some a → loaded a = true →
         List.filter (is_load_of k) loads = [])
    ∧ (∀ k a, models s !! k = Some a → loaded a = true →
         ∃ a', models s' !! k = Some a' ∧ loaded a' = true).
Proof.
  revert s r s'. induction ms as [| m ms IH]; intros s r s'.
  { intros [= <- <-]. exists []. rewrite app_nil_r. split_and!; try done.
    - intros k. cbn. lia.
    - eauto. }
  cbn [all_loop]. unfold bind at 1. rewrite all_step_eq. unfold bind at 1.
  set (s1 := match models s !! key m with
             | None => set_models <[key m := m]> s
             | Some _ => s
             end).
  assert (Hs1 : trace s1 = trace s
                ∧ ∀ k a, models s !! k = Some a → models s1 !! k = Some a).
  { subst s1. destruct (models s !! key m) eqn:Hm; [done |].
    split; [done |]. intros k a Hk. cbn.
    rewrite lookup_insert_ne; [done |]. congruence. }
  destruct Hs1 as [Htr1 Hkeep1].
  destruct (missing_or_unloaded (models s1) (name m, tag m)) eqn:Hmiss.
  - (* the key has no loaded entry: the storage is asked *)
    assert (Hother : ∀ k a, models s !! k = Some a → loaded a = true →
              (name m, tag m) ≠ k).
    { intros k a Hk Hl <-. apply Hkeep1 in Hk.
      apply missing_or_unloaded_true in Hmiss as [Hnone | (a0 & Ha0 & Hl0)]; congruence. }
    rewrite unsafe_load_miss by done.
    destruct (storage_load (name m) (tag m) (storage s1)) as [[a | e] b] eqn:Hload.
    + apply load_returns_loaded in Hload. unfold bind at 1.
      destruct (all_loop ms _ _) as [r3 s3] eqn:Hrest.
      apply IH in Hrest as (l2 & Htr3 & Hone & Hnone & Hkeep).
      cbn [trace models] in Htr3, Hnone, Hkeep.
      assert (Hall : ∃ loads, trace s3 = trace s ++ loads
                ∧ (∀ k, length (List.filter (is_load_of k) loads) ≤ 1)
                ∧ (∀ k a0, models s !! k = Some a0 → loaded a0 = true →
                     List.filter (is_load_of k) loads = [])
                ∧ (∀ k a0, models s !! k = Some a0 → loaded a0 = true →
                     ∃ a', models s3 !! k = Some a' ∧ loaded a' = true)).
      { exists (StorageLoad (name m) (tag m) :: l2).
        rewrite Htr3, Htr1, <- app_assoc. split; [done |]. split_and!.
        - intros k. change (StorageLoad (name m) (tag m) :: l2)
            with ([StorageLoad (name m) (tag m)] ++ l2).
          rewrite List.filter_app, filter_load_of_singleton, length_app.
          case_bool_decide as Hk.
          + subst k. rewrite (Hnone (name m, tag m) a); [cbn; lia | | done].
            apply lookup_insert_eq.
          + cbn. apply Hone.
        - intros k a0 Hk Hl. pose proof (Hother k a0 Hk Hl) as Hne.
          change (StorageLoad (name m) (tag m) :: l2)
            with ([StorageLoad (name m) (tag m)] ++ l2).
          rewrite List.filter_app, filter_load_of_singleton.
          rewrite bool_decide_eq_false_2 by done. cbn.
          apply (Hnone k a0); [| done]. rewrite lookup_insert_ne by done.
          by apply Hkeep1.
        - intros k a0 Hk Hl. pose proof (Hother k a0 Hk Hl) as Hne.
          apply (Hkeep k a0); [| done]. rewrite lookup_insert_ne by done.
          by apply Hkeep1. }
      by destruct r3; intros [= <- <-].
    + intros [= <- <-]. exists [StorageLoad (name m) (tag m)].
      cbn [trace models]. rewrite Htr1. split; [done |]. split_and!.
      * intros k. rewrite filter_load_of_singleton. case_bool_decide; cbn; lia.
      * intros k a0 Hk Hl. rewrite filter_load_of_singleton.
        by rewrite bool_decide_eq_false_2 by eauto.
      * intros k a0 Hk Hl. eauto.
  - (* the key has a loaded entry: nothing is asked *)
    apply missing_or_unloaded_false in Hmiss as (a & Ha & Hl).
    rewrite (unsafe_load_hit _ _ _ a) by done. unfold bind at 1.
    destruct (all_loop ms _ s1) as [r3 s3] eqn:Hrest.
    apply IH in Hrest as (l2 & Htr3 & Hone & Hnone & Hkeep).
    assert (Hall : ∃ loads, trace s3 = trace s ++ loads
              ∧ (∀ k, length (List.filter (is_load_of k) loads) ≤ 1)
              ∧ (∀ k a0, models s !! k = Some a0 → loaded a0 = true →
                   List.filter (is_load_of k) loads = [])
              ∧ (∀ k a0, models s !! k = Some a0 → loaded a0 = true →
                   ∃ a', models s3 !! k = Some a' ∧ loaded a' = true)).
    { exists l2. rewrite Htr3, Htr1. split_and!; try done.
      - intros k a0 Hk Hl0. apply (Hnone k a0); [by apply Hkeep1 | done].
      - intros k a0 Hk Hl0. apply (Hkeep k a0); [by apply Hkeep1 | done]. }
    by destruct r3; intros [= <- <-].
Qed.

(** X10. During a preload no key is loaded twice: when the storage
    enumerates a key several times, or enumerates an artifact that is
    already loaded, [storage.load] is called at most once for the key,
    whether the construction returns or raises. *)
Theorem Cache_new_loads_each_key_once (st : Storage S) (k : string * string) :
  length (List.filter (is_load_of k) (trace (snd (Cache_new st true)))) ≤ 1.
Proof.
  rewrite Cache_new_preload_eq.
  destruct (all_loop _ _ _) as [r1 s1] eqn:Hloop.
  apply preload_loop_once in Hloop as (loads & Htr & Hone & _).
  cbn [trace] in Htr.
  destruct r1 as [ys | e]; cbn [snd log trace]; rewrite Htr.
  - rewrite !List.filter_app, !length_app. cbn. specialize (Hone k). lia.
  - rewrite List.filter_app, length_app. cbn. specialize (Hone k). lia.
Qed.

End PreloadOnce.

(** The artifact listed twice is loaded once. *)
Lemma Cache_new_loads_each_key_once_witness :
  let twin := Model_new 8 "08" 5 "a" "v1" (mkPath "/" ["var"; "models"])
             (Some (mkLoader NoStrategy)) in
  let st := mkStorage (Memory.mkBackend (mkPath "/" ["var"; "models"]) [Memory.a_v1; twin] false) [] [] in
  (∀ name tag (b b' : Memory.Backend) m,
     storage_load name tag b = (Ok m, b') → loaded m = true)
  ∧ fst (Cache_new st true) = Ok tt
  ∧ List.filter is_storage_load (trace (snd (Cache_new st true)))
      = [StorageLoad "a" "v1"]
  ∧ length (List.filter (is_load_of ("a", "v1")) (trace (snd (Cache_new st true)))) ≤ 1.
Proof.
  intros twin st.
  split; [exact Memory_load_returns_loaded |].
  split; [vm_compute; reflexivity |]. split; [vm_compute; reflexivity |].
  exact (Cache_new_loads_each_key_once Memory_load_returns_loaded st ("a", "v1")).
Defined.

(** * Further properties of the model *)

(** X11. [Model.load] then [predict].  A successful [Model.load] keeps
    identifier, name, tag, timestamp and path and attaches the handle the
    runtime returned for the path of the model, so [loaded] answers
    true.  That does not yet mean [predict] runs the handle: on the
    model just loaded, [predict] ends in [NotLoadedError] exactly when
    the handle is false in a boolean context, and calls no other handle
    than the one attached.  Without a loader [Model.load] ends in
    [AttributeError]; an error of the runtime is handed on. *)
Theorem Model_load_outcome (runtime : Runtime) (self : Model) :
  match Model_load runtime self with
  | Ok self' =>
      ∃ l h, loader self = Some l ∧ runtime (path self) = inr h
        ∧ model self' = Some h ∧ loaded self' = true
        ∧ uid self' = uid self ∧ key self' = key self
        ∧ created_at self' = created_at self ∧ path self' = path self
        ∧ ∀ x calls,
            ((∃ n t, fst (predict self' x calls) = Err (NotLoadedError n t))
               ↔ truthy h = false)
            ∧ (snd (predict self' x calls) = calls
               ∨ snd (predict self' x calls) = calls ++ [(h, x)])
  | Err e =>
      (loader self = None
       ∧ e = AttributeError "'NoneType' object has no attribute 'load'")
      ∨ (∃ l re, loader self = Some l ∧ runtime (path self) = inl re
                 ∧ e = RuntimeError re)
  end.
Proof.
  unfold Model_load, Loader_load.
  destruct (loader self) as [l |] eqn:Hl; [| by left].
  destruct (runtime (path self)) as [re | h] eqn:Hrun; [right; eauto |].
  exists l, h. split_and!; try done.
  intros x calls. set (self' := mkModel _ _ _ _ _ _ _).
  assert (Hm : model self' = Some h) by done.
  destruct (truthy h) eqn:Ht.
  - split.
    + split; [| done]. intros (n & t & Hr).
      by destruct (predict_passed_not_refused self' h x calls n t Hm Ht).
    + destruct (predict_with_handle self' h x calls Hm Ht) as [-> | [Hsame _]].
      * right. by rewrite call_handle_eq.
      * by left.
  - assert (Hnot : not_model self' = true).
    { rewrite (not_model_Some self' h Hm), Ht. done. }
    rewrite (predict_refused self' x calls Hnot). split; [| by left].
    split; [done |]. intros _. by exists (name self'), (tag self').
Qed.

(** X12. A dimension the handle leaves open ([None] in its input shape,
    after the leading one) is not treated as matching anything: every
    input with a leading dimension is refused with [InputShapeError],
    before any call on the handle.  (A handle that is false in a boolean
    context does not get that far: the call has ended in
    [NotLoadedError].) *)
Theorem predict_unknown_dimension_rejects (self : Model) (h : Handle) (x : ndarray)
    (calls : Calls) (d : option Z) (expected : list (option Z))
    (b : Z) (actual : list Z)
    (Hloaded : model self = Some h)
    (Hshape : input_shape h = Some (d :: expected))
    (Hopen : None ∈ expected)
    (Hinput : shape x = b :: actual) :
  predict self x calls
    = (Err (if truthy h then InputShapeError expected actual
            else NotLoadedError (name self) (tag self)), calls).
Proof.
  destruct (truthy h) eqn:Ht; cycle 1.
  { apply predict_refused. by rewrite (not_model_Some self h Hloaded), Ht. }
  rewrite (predict_passed self h x calls Hloaded Ht), Hshape, Hinput.
  assert (Hdiff : dims_differ expected actual = true).
  { apply dims_differ_true. intros ->.
    apply list_elem_of_fmap in Hopen as (z & Hz & _). done. }
  by rewrite Hdiff.
Qed.

Lemma predict_unknown_dimension_rejects_witness :
  let h := mkHandle (Some [None; None; Some 3%Z]) (λ x, inr x) true in
  let self := {| uid := 7; name := "a"; tag := "v1"; created_at := 0;
                 loader := None; path := "/var/models/07"; model := Some h |} in
  let x := mkArray [1%Z; 5%Z; 3%Z] [] in
  model self = Some h
  ∧ input_shape h = Some [None; None; Some 3%Z]
  ∧ None ∈ [None; Some 3%Z]
  ∧ shape x = [1%Z; 5%Z; 3%Z]
  ∧ predict self x [] = (Err (InputShapeError [None; Some 3%Z] [5%Z; 3%Z]), []).
Proof.
  intros h self x.
  assert (Hopen : None ∈ [None; Some 3%Z]) by apply list_elem_of_here.
  split; [reflexivity |]. split; [reflexivity |]. split; [exact Hopen |].
  split; [reflexivity |].
  exact (predict_unknown_dimension_rejects self h x [] None [None; Some 3%Z]
           1%Z [5%Z; 3%Z] eq_refl eq_refl Hopen eq_refl).
Defined.

(** X13. When the input shape of the handle or the shape of the input
    is empty, the unpacking of the leading dimension fails: [predict]
    ends in [ValueError], not in [InputShapeError], and the handle is
    not called.  (A handle that is false in a boolean context does not
    get that far: the call has ended in [NotLoadedError].) *)
Theorem predict_unpack_error (self : Model) (h : Handle) (x : ndarray)
    (calls : Calls) (ishape : list (option Z))
    (Hloaded : model self = Some h)
    (Hshape : input_shape h = Some ishape)
    (Hempty : ishape = [] ∨ shape x = []) :
  predict self x calls
    = (Err (if truthy h
            then ValueError "not enough values to unpack (expected at least 1, got 0)"
            else NotLoadedError (name self) (tag self)),
       calls).
Proof.
  destruct (truthy h) eqn:Ht; cycle 1.
  { apply predict_refused. by rewrite (not_model_Some self h Hloaded), Ht. }
  rewrite (predict_passed self h x calls Hloaded Ht), Hshape.
  destruct ishape as [| d expected]; [done |].
  destruct Hempty as [? | ->]; done.
Qed.

(** A single number sent to a model with one dense input. *)
Lemma predict_unpack_error_witness :
  let self := Memory.a_v1_loaded in
  let x := mkArray [] [5%Z] in
  model self = Some Memory.dense10
  ∧ input_shape Memory.dense10 = Some [None; Some 10%Z]
  ∧ shape x = []
  ∧ predict self x []
      = (Err (ValueError "not enough values to unpack (expected at least 1, got 0)"),
         []).
Proof.
  intros self x.
  assert (Hx : shape x = []) by reflexivity.
  split; [reflexivity |]. split; [reflexivity |]. split; [exact Hx |].
  exact (predict_unpack_error self Memory.dense10 x [] [None; Some 10%Z]
           eq_refl eq_refl (or_intror Hx)).
Defined.

(** X14. [predict] calls at most one handle, the one of the model, at
    most once and with the input it was given; when it does, it returns
    what the handle returns and hands on what the handle raises.  When it
    does not, it has raised an error of its own. *)
Theorem predict_calls_own_handle_once (self : Model) (x : ndarray) (calls : Calls) :
  (snd (predict self x calls) = calls
   ∧ ∃ e, fst (predict self x calls) = Err e ∧ ∀ re, e ≠ RuntimeError re)
  ∨ (∃ h, model self = Some h
          ∧ snd (predict self x calls) = calls ++ [(h, x)]
          ∧ fst (predict self x calls)
              = match handle_predict h x with
                | inr y => Ok y
                | inl re => Err (RuntimeError re)
                end).
Proof.
  destruct (not_model self) eqn:Hnot.
  { left. rewrite (predict_refused self x calls Hnot). split; [done |].
    exists (NotLoadedError (name self) (tag self)). by split. }
  unfold not_model in Hnot. destruct (model self) as [h |] eqn:Hm; [| done].
  apply negb_false_iff in Hnot.
  destruct (predict_with_handle self h x calls Hm Hnot)
    as [-> | (Hsame & [(msg & Hv) | (e & a & Hi)])].
  - right. exists h. split; [done |]. by rewrite call_handle_eq.
  - left. split; [done |]. exists (ValueError msg). by split.
  - left. split; [done |]. exists (InputShapeError e a). by split.
Qed.

Lemma str_colon_inj (n1 t1 n2 t2 : string) :
  has_colon n1 = false → has_colon n2 = false →
  n1 +:+ ":" +:+ t1 = n2 +:+ ":" +:+ t2 → n1 = n2 ∧ t1 = t2.
Proof.
  revert n2. induction n1 as [| c n1 IH]; intros n2 H1 H2 Heq.
  - destruct n2 as [| c2 n2]; cbn in *.
    + by injection Heq.
    + injection Heq as <- _. by rewrite bool_decide_eq_true_2 in H2.
  - destruct n2 as [| c2 n2]; cbn in *.
    + injection Heq as -> _. by rewrite bool_decide_eq_true_2 in H1.
    + injection Heq as -> Heq.
      apply orb_false_iff in H1 as [_ H1]. apply orb_false_iff in H2 as [_ H2].
      destruct (IH n2 H1 H2 Heq) as [-> ->]. done.
Qed.

(** X15. The printed form [name:tag] tells two models with different
    keys apart as long as their names hold no colon; with a colon in a
    name it does not. *)
Theorem Model_str_tells_keys_apart :
  (∀ m1 m2 : Model,
     has_colon (name m1) = false → has_colon (name m2) = false →
     Model_str m1 = Model_str m2 → key m1 = key m2)
  ∧ (∃ m1 m2 : Model, Model_str m1 = Model_str m2 ∧ key m1 ≠ key m2).
Proof.
  split.
  - intros m1 m2 H1 H2 Heq. unfold Model_str in Heq.
    destruct (str_colon_inj _ _ _ _ H1 H2 Heq) as [Hn Ht].
    unfold key. by rewrite Hn, Ht.
  - exists (Model_init 1 "a:b" "c" 0 "" None), (Model_init 2 "a" "b:c" 0 "" None).
    split; [done |]. unfold key. cbn. congruence.
Qed.

(** X16. The dictionary [to_dict] builds cannot be handed back to
    [from_dict]: it names the identifier [id], while [__init__] takes
    [uid], so the call ends in a [TypeError] for the keyword [id],
    whatever the model.  With that one key renamed the keywords bind. *)
Theorem from_dict_refuses_to_dict (self : Model) :
  from_dict (to_dict self) = UnexpectedKeyword "id"
  ∧ from_dict (("uid", PyStr (uuid_hex (uid self))) :: tl (to_dict self))
      = Bound (("uid", PyStr (uuid_hex (uid self))) :: tl (to_dict self)).
Proof.
  assert (Hid : bool_decide ("id" ∈ init_parameters) = false) by (by vm_compute).
  assert (Hkeys : Forall (λ k, bool_decide (k ∈ init_parameters) = true)
                    ["uid"; "name"; "tag"; "created_at"])
    by (repeat constructor; by vm_compute).
  apply Forall_cons in Hkeys as (Huid & (Hname & (Htag & (Hat & _)%Forall_cons)
    %Forall_cons)%Forall_cons).
  split.
  - unfold from_dict, to_dict. cbn [List.find fst]. by rewrite Hid.
  - unfold from_dict, to_dict. cbn [tl List.find fst].
    by rewrite Huid, Hname, Htag, Hat.
Qed.

(** * How the calls of the cache compose *)

Section Composition.
Context {S : Type} `{!AbstractStorage S}.
Implicit Types (s : State S) (m a : Model) (name tag : string).

Lemma Cache_all_lookup s (k : string * string) :
  models (snd (Cache_all s)) !! k
    = match models s !! k with
      | Some a => Some a
      | None => List.find (λ a, bool_decide (key a = k))
                  (fst (fst (storage_all (storage s))))
      end.
Proof.
  destruct (Cache_all_eq s) as (s' & Hrun & ->). cbn [snd log models].
  destruct (all_loop_ret (fst (fst (storage_all (storage s))))
              (mkState (snd (storage_all (storage s))) (on_save s) (on_delete s)
                       (models s) (trace s ++ [Acquire reader_lock; StorageAll])))
    as (s2 & Hrun2 & _ & _ & _ & _ & Hkeep & Hnew).
  rewrite Hrun in Hrun2. injection Hrun2 as <-. cbn [models] in Hkeep, Hnew.
  destruct (models s !! k) as [a |] eqn:Hk; [by apply Hkeep | by apply Hnew].
Qed.

Lemma Cache_load_Ok_entry name tag s m s1 :
  Cache_load name tag s = (Ok m, s1) → models s1 !! (name, tag) = Some m.
Proof.
  unfold Cache_load, async_with.
  destruct (unsafe_load name tag _) as [r s'] eqn:Hrun.
  intros [= -> <-]. by apply unsafe_load_Ok in Hrun.
Qed.

(** X17. A loaded artifact survives a listing in between: load, then
    list, then load again returns the artifact of the first load without
    another call of [storage.load], whatever the storage enumerates. *)
Theorem Cache_load_survives_listing name tag s s1 m
    (Hfirst : Cache_load name tag s = (Ok m, s1))
    (Hloaded : loaded m = true) :
  let s2 := snd (Cache_all s1) in
  fst (Cache_load name tag s2) = Ok m
  ∧ trace (snd (Cache_load name tag s2))
      = trace s2 ++ [Acquire writer_lock; Release writer_lock].
Proof.
  cbn zeta. apply Cache_load_Ok_entry in Hfirst.
  assert (Hentry : models (snd (Cache_all s1)) !! (name, tag) = Some m)
    by (by rewrite Cache_all_lookup, Hfirst).
  by rewrite (Cache_load_hit _ _ _ m).
Qed.

(** X18. Removal from the map does not outlast a listing: after
    [Cache.delete], what the next listing leaves under the key is the
    first artifact the storage still enumerates for it (so the entry is
    back when [storage.delete] failed), and nothing when the storage no
    longer enumerates the key. *)
Theorem Cache_delete_then_all name tag s :
  let s1 := snd (Cache_delete name tag s) in
  models (snd (Cache_all s1)) !! (name, tag)
    = List.find (λ a, bool_decide (key a = (name, tag)))
        (fst (fst (storage_all (storage s1)))).
Proof.
  cbn zeta. rewrite Cache_all_lookup, Cache_delete_eq. cbn [snd models storage].
  by rewrite lookup_delete_eq.
Qed.

(** X19. The callbacks may run after the call that already did their
    work: [save_to_cache] of the artifact [Cache.save] has just filed,
    and [delete_from_cache] of the key [Cache.delete] has just removed,
    leave the map as it is. *)
Theorem callbacks_after_the_call name tag (stream : list Byte.byte) s :
  (∀ m (b : S), storage_save name tag stream (storage s) = (Ok m, b) →
     models (snd (save_to_cache m (snd (Cache_save name tag stream s))))
       = models (snd (Cache_save name tag stream s)))
  ∧ models (snd (delete_from_cache name tag (snd (Cache_delete name tag s))))
      = models (snd (Cache_delete name tag s)).
Proof.
  split.
  - intros m b Hsave. rewrite save_to_cache_eq, Cache_save_eq, Hsave.
    cbn [snd models]. apply insert_insert_eq.
  - rewrite delete_from_cache_eq, Cache_delete_eq. cbn [snd models].
    apply delete_id, lookup_delete_eq.
Qed.

End Composition.

Lemma Cache_load_survives_listing_witness :
  let s := Memory.empty_cache false in
  let m := Memory.a_v1_loaded in
  let s1 := snd (Cache_load "a" "v1" s) in
  Cache_load "a" "v1" s = (Ok m, s1)
  ∧ loaded m = true
  ∧ fst (Cache_load "a" "v1" (snd (Cache_all s1))) = Ok m.
Proof.
  intros s m s1.
  assert (Hfirst : Cache_load "a" "v1" s = (Ok m, s1)) by (vm_compute; reflexivity).
  assert (Hloaded : loaded m = true) by reflexivity.
  split; [exact Hfirst |]. split; [exact Hloaded |].
  exact (proj1 (Cache_load_survives_listing "a" "v1" s s1 m Hfirst Hloaded)).
Defined.

(** * Two callers and a storage that fails *)

Section Retries.
Context {S : Type} `{!AbstractStorage S}.
Variables (name tag : string) (s0 : State S).

Hypothesis load_returns_loaded :
  ∀ (b b' : S) m, storage_load name tag b = (Ok m, b') → loaded m = true.

(** A loaded entry was put there by a task that returned it. *)
Lemma move_entry_owner (t o : Task) (held : bool) (s : State S)
    (t' : Task) (held' : bool) (s' : State S) :
  (missing_or_unloaded (models s) (name, tag) = false →
     (∃ m, t = Returned (Ok m)) ∨ (∃ m, o = Returned (Ok m))) →
  move name tag t held s = Some (t', held', s') →
  missing_or_unloaded (models s') (name, tag) = false →
  (∃ m, t' = Returned (Ok m)) ∨ (∃ m, o = Returned (Ok m)).
Proof.
  intros Hown Hmove. destruct t; cbn [move] in Hmove; [| | | done].
  - destruct held; [done |]. injection Hmove as <- <- <-. cbn [log models].
    intros Hl. destruct (Hown Hl) as [[m [=]] | ?]. by right.
  - destruct (missing_or_unloaded (models s) (name, tag)) eqn:Hmiss.
    + injection Hmove as <- <- <-. cbn [log models]. by rewrite Hmiss.
    + pose proof Hmiss as (a & Ha & Hl)%missing_or_unloaded_false.
      rewrite (models_getitem_Some _ _ a) in Hmove by done.
      injection Hmove as <- <- <-. eauto.
  - rewrite resume_load_eq in Hmove.
    destruct (storage_load name tag (storage s)) as [[a | e] b];
      injection Hmove as <- <- <-; cbn [log models]; [eauto |].
    intros Hl. destruct (Hown Hl) as [[m [=]] | ?]. by right.
Qed.

Lemma run_entry_owner (schedule : list bool) (c : Config S) :
  (missing_or_unloaded (models (cache c)) (name, tag) = false →
     (∃ m, task1 c = Returned (Ok m)) ∨ (∃ m, task2 c = Returned (Ok m))) →
  let c' := run name tag schedule c in
  missing_or_unloaded (models (cache c')) (name, tag) = false →
  (∃ m, task1 c' = Returned (Ok m)) ∨ (∃ m, task2 c' = Returned (Ok m)).
Proof.
  revert c. induction schedule as [| first rest IH]; intros c Hown; [done |].
  cbn [run]. apply IH. unfold step.
  destruct first.
  - destruct (move name tag (task1 c) _ _) as [[[t held] s] |] eqn:Hmove; [| done].
    cbn. by eapply move_entry_owner.
  - destruct (move name tag (task2 c) _ _) as [[[t held] s] |] eqn:Hmove; [| done].
    cbn. intros Hl. apply or_comm. eapply move_entry_owner; [| done..].
    intros Hl0. apply or_comm. by apply Hown.
Qed.

(** X20. Two calls [Cache.load(name, tag)] made together on a cache
    without a loaded entry for the key call [storage.load] at most
    twice under any schedule, and twice only when one of the calls
    failed: a failure is not remembered, so the other call asks the
    storage again.  When both have failed, the storage was asked twice. *)
Theorem concurrent_load_retries (schedule : list bool)
    (Hmiss : models s0 !! (name, tag) = None
             ∨ ∃ a, models s0 !! (name, tag) = Some a ∧ loaded a = false) :
  let c := run name tag schedule (start s0) in
  ∃ events,
    trace (cache c) = trace s0 ++ events
    ∧ length (List.filter is_storage_load events) ≤ 2
    ∧ (length (List.filter is_storage_load events) = 2 →
         has_failed (task1 c) || has_failed (task2 c) = true)
    ∧ (has_failed (task1 c) && has_failed (task2 c) = true →
         length (List.filter is_storage_load events) = 2).
Proof.
  intros c. apply missing_or_unloaded_true in Hmiss.
  assert (Hinv : holds name tag s0 c)
    by (by apply run_invariant, load_invariant_start).
  assert (Hown : missing_or_unloaded (models (cache c)) (name, tag) = false →
            (∃ m, task1 c = Returned (Ok m)) ∨ (∃ m, task2 c = Returned (Ok m))).
  { apply (run_entry_owner schedule (start s0)). cbn. by rewrite Hmiss. }
  destruct Hinv as (_ & Hexcl & Hload & _ & (ev & Htr & Hcount)).
  exists ev. split; [done |]. rewrite Hcount, length_replicate.
  destruct (missing_or_unloaded (models (cache c)) (name, tag)) eqn:Hnow.
  - clear Hown Hload.
    destruct (task1 c) as [| | | [? | ?]], (task2 c) as [| | | [? | ?]];
      cbn in *; try done; split_and!; try done; lia.
  - destruct (Hown eq_refl) as [[m H1] | [m H2]].
    + rewrite H1 in *.
      destruct (task2 c) as [| | | [? | ?]]; cbn in *;
        try (by specialize (Hload eq_refl)); split_and!; try done; lia.
    + rewrite H2 in *.
      destruct (task1 c) as [| | | [? | ?]]; cbn in *;
        try (by specialize (Hload eq_refl)); split_and!; try done; lia.
Qed.

End Retries.

(** Both calls fail on the storage out of reach: it was asked twice. *)
Lemma concurrent_load_retries_witness :
  let s := Failing.empty_cache in
  let c := run "a" "v1" [true; false; true; true; false; false; false] (start s) in
  (∀ (b b' : unit) m, storage_load "a" "v1" b = (Ok m, b') → loaded m = true)
  ∧ models s !! ("a", "v1") = None
  ∧ task1 c = Returned (Err Failing.refused)
  ∧ task2 c = Returned (Err Failing.refused)
  ∧ ∃ events, trace (cache c) = trace s ++ events
      ∧ length (List.filter is_storage_load events) = 2.
Proof.
  intros s c.
  assert (Hcontract : ∀ (b b' : unit) m,
            storage_load "a" "v1" b = (Ok m, b') → loaded m = true) by done.
  assert (Hnone : models s !! ("a", "v1") = None) by reflexivity.
  assert (Hboth : has_failed (task1 c) && has_failed (task2 c) = true)
    by (vm_compute; reflexivity).
  split; [exact Hcontract |]. split; [exact Hnone |].
  split; [vm_compute; reflexivity |]. split; [vm_compute; reflexivity |].
  destruct (concurrent_load_retries "a" "v1" s Hcontract
              [true; false; true; true; false; false; false] (or_introl Hnone))
    as (events & Htr & _ & _ & Htwice).
  exists events. split; [exact Htr | exact (Htwice Hboth)].
Defined.
